(** * naima / gammafit: the sherpa adapter and the Crab Nebula example

    A shallow embedding of
      - [src/gammafit/sherpamod.py]  ([_mergex], and [__init__], [guess]
        and [calc] of [InverseCompton]) and
      - [src/examples/CrabNebula_IC_We.py]  ([ElectronIC], [lnprior], the
        start vector of the main block),
    the properties of the two files that the specification states, and
    further properties of the same functions.

    Conventions of the embedding.
      - A Python float is a real number ([R]): rounding, infinities and NaN
        are left out, so [==] and [>] on floats are the decidable comparisons
        of [R].
      - A numpy array is a [list R] stored in a heap and named by its
        address, because [_mergex] assigns into arrays in place.
      - A Python exception is the [Raise] case of [result]; a function body
        is a computation in the monad [M], which threads the heap and the
        log of the calls made outside the two files.
      - The two files call astropy.units, sherpa, and the package's own
        modules [models] and [utils], whose sources are not among the
        files.  What these answer is a parameter: the fields of a [library]
        record, a variable of the section the two functions live in.  Every
        such call is logged with its answer, so the statements can speak of
        what was called, with which arguments, in which order. *)

From Stdlib Require Import Reals Lra Lia String List ZArith Bool.
From Stdlib Require Import Permutation Sorted.
Import ListNotations.

Open Scope string_scope.
Open Scope list_scope.
Open Scope R_scope.

Set Implicit Arguments.

(** ** Exceptions and results *)

Inductive exn : Type :=
| NameError (name : string)
| AttributeError (name : string)
| ValueError (msg : string)
| IndexError
| KeyError (key : string)
| UnitConversionError
| SystemError (msg : string)
| LibraryError (msg : string).

Inductive result (A : Type) : Type :=
| Ok (a : A)
| Raise (e : exn).

Arguments Ok {A} a.
Arguments Raise {A} e.

Definition map_result {A B} (f : A -> B) (r : result A) : result B :=
  match r with
  | Ok a => Ok (f a)
  | Raise e => Raise e
  end.

(** ** Units and quantities (astropy.units, as far as the sources use it) *)

Inductive Unit : Type :=
| UName (name : string)        (* an attribute of the units module *)
| UStr (s : string)            (* a unit given by its string, u.Unit(s) or .to(s) *)
| UOne                         (* the 1 of [1/u.eV] *)
| UMul (a b : Unit)
| UDiv (a b : Unit)
| UPow (a : Unit) (n : Z).

(** A scalar with a unit, and an array with a unit. *)
Record Quantity : Type := mkQ { qval : R; qunit : Unit }.
Record QArr : Type := mkQA { qv : list R; qu : Unit }.

(** ** Objects of the external libraries, and the calls made to them *)

Definition obj := nat.
Definition loc := nat.

(** An entry of [seed_photon_fields]: a name, or [[name, T, u]]. *)
Inductive seed : Type :=
| SeedName (name : string)
| SeedField (name : string) (T : Quantity) (u : Quantity).

(** A column of an astropy table, and the table [data]. *)
Definition Table := list (string * QArr).

(** What [flux] is evaluated on: an array of energies or a data table. *)
Inductive flux_arg : Type :=
| EArr (e : QArr)
| ETable (t : Table).

(** What a call answered, and what [print] is given. *)
Inductive value : Type :=
| VUnit (u : Unit)
| VFactor (k : R)
| VObj (o : obj)
| VQArr (q : QArr)
| VQuantity (q : Quantity)
| VReals (l : list R)
| VNone.

Inductive call : Type :=
| C_units_attr (name : string)
| C_to (src dst : Unit)
| C_PowerLaw (amplitude e_0 : Quantity) (alpha : R)
| C_ExponentialCutoffPowerLaw
    (amplitude e_0 : Quantity) (alpha : R) (e_cutoff : Quantity)
    (beta : option R)
| C_InverseCompton
    (pdist : obj) (seed_photon_fields : list seed)
    (log10gmin log10gmax ngamd : option Z)
| C_set_We (ic : obj) (We : Quantity) (Eemin : option Quantity)
| C_flux (ic : obj) (energy : flux_arg) (distance : option Quantity)
| C_pdist_call (pdist : obj) (e : QArr)
| C_trapz_loglog (y x : QArr)
| C_thawedpars (self : obj)
| C_print (item : value).

Definition event : Type := (call * result value)%type.

(** The answers of the external libraries.  Unit lookup and unit conversion
    are functions of their arguments; a call on a model object may depend on
    the calls made before it ([set_We] changes what [flux] and the particle
    distribution answer afterwards), so it is given the log. *)
Record library : Type := mkLibrary {
  units_attr : string -> result Unit;
  units_factor : Unit -> Unit -> result R;
  new_PowerLaw : list event -> Quantity -> Quantity -> R -> result obj;
  new_ExponentialCutoffPowerLaw :
    list event -> Quantity -> Quantity -> R -> Quantity -> option R ->
    result obj;
  new_InverseCompton :
    list event -> obj -> list seed -> option Z -> option Z -> option Z ->
    result obj;
  ic_set_We : list event -> obj -> Quantity -> option Quantity -> result unit;
  ic_flux : list event -> obj -> flux_arg -> option Quantity -> result QArr;
  pdist_call : list event -> obj -> QArr -> result QArr;
  utils_trapz_loglog : list event -> QArr -> QArr -> result Quantity;
  model_thawedpars : list event -> obj -> result (list R)
}.

(** ** The state and the monad *)

Record world : Type := mkWorld {
  heap : list (list R);
  trace : list event
}.

Definition M (A : Type) : Type := world -> result A * world.

Definition ret {A} (a : A) : M A := fun w => (Ok a, w).

Definition raise {A} (e : exn) : M A := fun w => (Raise e, w).

Definition bind {A B} (m : M A) (k : A -> M B) : M B :=
  fun w =>
    match m w with
    | (Ok a, w') => k a w'
    | (Raise e, w') => (Raise e, w')
    end.

Notation "x <- m ;; k" := (bind m (fun x => k))
  (at level 61, m at next level, right associativity).
Notation "m ;;; k" := (bind m (fun _ => k))
  (at level 61, right associativity).

(** A call to an external library: its answer is logged with the call. *)
Definition extern {T} (c : call) (inj : T -> value)
    (answer : list event -> result T) : M T :=
  fun w =>
    let r := answer (trace w) in
    (r, {| heap := heap w; trace := trace w ++ [(c, map_result inj r)] |}).

(** The answer of a library function that only computes a value; it is
    not logged. *)
Definition lift {A} (r : result A) : M A := fun w => (r, w).

(** ** numpy arrays in the heap

    An address is the position of the array in the heap; allocation appends.
    Python has no dangling reference: an address outside the heap, which no
    program below produces, is answered with [SystemError]. *)

(** The list [l] with position [n] set to [v]; unchanged if there is no
    such position. *)
Fixpoint upd {A} (n : nat) (v : A) (l : list A) : list A :=
  match l, n with
  | [], _ => []
  | _ :: t, O => v :: t
  | h :: t, S n' => h :: upd n' v t
  end.

Definition read (l : loc) : M (list R) :=
  fun w =>
    match nth_error (heap w) l with
    | Some a => (Ok a, w)
    | None => (Raise (SystemError "no such array"), w)
    end.

Definition alloc (a : list R) : M loc :=
  fun w =>
    (Ok (length (heap w)), {| heap := heap w ++ [a]; trace := trace w |}).

Definition write (l : loc) (a : list R) : M unit :=
  fun w =>
    match nth_error (heap w) l with
    | Some _ => (Ok tt, {| heap := upd l a (heap w); trace := trace w |})
    | None => (Raise (SystemError "no such array"), w)
    end.

(** Python's index rule: a negative index counts from the end. *)
Definition py_index (len : nat) (i : Z) : option nat :=
  let n := Z.of_nat len in
  if (0 <=? i)%Z then
    if (i <? n)%Z then Some (Z.to_nat i) else None
  else
    if (- n <=? i)%Z then Some (Z.to_nat (n + i)) else None.

(** [a.size] *)
Definition np_size (a : loc) : M nat :=
  v <- read a ;; ret (length v).

(** [np.zeros(n)] *)
Definition np_zeros (n : nat) : M loc := alloc (repeat 0 n).

(** [a.copy()] *)
Definition np_copy (a : loc) : M loc :=
  v <- read a ;; alloc v.

(** [x[:n] = src]: the slice is clipped to the array, and [src] must have
    the slice's length or length one. *)
Definition np_setslice_upto (x : loc) (n : nat) (src : loc) : M unit :=
  a <- read x ;;
  s <- read src ;;
  let m := Nat.min n (length a) in
  if Nat.eqb (length s) m then write x (s ++ skipn m a)
  else
    match s with
    | [v] => write x (repeat v m ++ skipn m a)
    | _ => raise (ValueError "could not broadcast input array")
    end.

(** [a[i]] *)
Definition np_getitem (a : loc) (i : Z) : M R :=
  v <- read a ;;
  match py_index (length v) i with
  | Some k => ret (nth k v 0)
  | None => raise IndexError
  end.

(** [a[i] = r] *)
Definition np_setitem (a : loc) (i : Z) (r : R) : M unit :=
  v <- read a ;;
  match py_index (length v) i with
  | Some k => write a (upd k r v)
  | None => raise IndexError
  end.

(** Elementwise operation on two arrays, with numpy's broadcasting of an
    array of length one. *)
Fixpoint zip_with (f : R -> R -> R) (a b : list R) : list R :=
  match a, b with
  | x :: a', y :: b' => f x y :: zip_with f a' b'
  | _, _ => []
  end.

Definition broadcast2 (f : R -> R -> R) (a b : list R) : result (list R) :=
  if Nat.eqb (length a) (length b) then Ok (zip_with f a b)
  else
    match a, b with
    | [x], _ => Ok (map (f x) b)
    | _, [y] => Ok (map (fun x => f x y) a)
    | _, _ => Raise (ValueError "operands could not be broadcast together")
    end.

(** [a + b] *)
Definition np_add (a b : loc) : M loc :=
  va <- read a ;;
  vb <- read b ;;
  match broadcast2 Rplus va vb with
  | Ok v => alloc v
  | Raise e => raise e
  end.

(** [a - b] *)
Definition np_sub (a b : loc) : M loc :=
  va <- read a ;;
  vb <- read b ;;
  match broadcast2 Rminus va vb with
  | Ok v => alloc v
  | Raise e => raise e
  end.

(** [a * b] *)
Definition np_mul (a b : loc) : M loc :=
  va <- read a ;;
  vb <- read b ;;
  match broadcast2 Rmult va vb with
  | Ok v => alloc v
  | Raise e => raise e
  end.

(** [a / c] for a scalar [c] *)
Definition np_div_scalar (a : loc) (c : R) : M loc :=
  va <- read a ;; alloc (map (fun v => v / c) va).

(** [np.concatenate((a, b))] *)
Definition np_concatenate (a b : loc) : M loc :=
  va <- read a ;;
  vb <- read b ;;
  alloc (va ++ vb).

(** [a.sort()]: in place, ascending. *)
Fixpoint insert (v : R) (l : list R) : list R :=
  match l with
  | [] => [v]
  | h :: t => if Rle_dec v h then v :: l else h :: insert v t
  end.

Fixpoint sort (l : list R) : list R :=
  match l with
  | [] => []
  | h :: t => insert h (sort t)
  end.

Definition np_sort (a : loc) : M unit :=
  v <- read a ;; write a (sort v).

(** ** sherpamod.py: [_mergex] *)

Definition _mergex (xlo xhi : loc) (midpoints : bool) : M loc :=
  N <- np_size xlo ;;                     (* N=xlo.size *)
  x <- np_zeros (N + 1) ;;                (* x=np.zeros(N+1) *)
  c <- np_copy xlo ;;                     (* x[:N]=xlo.copy() *)
  np_setslice_upto x N c ;;;
  v <- np_getitem xhi (-1) ;;             (* x[-1]=xhi[-1] *)
  np_setitem x (-1) v ;;;
  if midpoints then
    s <- np_add xlo xhi ;;                (* mid=(xlo+xhi)/2. *)
    mid <- np_div_scalar s 2 ;;
    x' <- np_concatenate x mid ;;         (* x=np.concatenate((x,mid)) *)
    np_sort x' ;;;                        (* x.sort() *)
    ret x'
  else
    ret x.

(** ** Arithmetic on quantities *)

(** [a[1:]] and [a[:-1]] *)
Definition qtail (a : QArr) : QArr := mkQA (tl (qv a)) (qu a).
Definition qinit (a : QArr) : QArr := mkQA (removelast (qv a)) (qu a).

(** [a - b] and [a + b] for two slices of one array (equal units). *)
Definition qsub (a b : QArr) : QArr := mkQA (zip_with Rminus (qv a) (qv b)) (qu a).
Definition qadd (a b : QArr) : QArr := mkQA (zip_with Rplus (qv a) (qv b)) (qu a).

(** [a / c] for a float [c] *)
Definition qdiv_scalar (a : QArr) (c : R) : QArr :=
  mkQA (map (fun v => v / c) (qv a)) (qu a).

(** [a * b]: the values are multiplied with broadcasting, the units are
    multiplied. *)
Definition qmul (a b : QArr) : M QArr :=
  match broadcast2 Rmult (qv a) (qv b) with
  | Ok v => ret (mkQA v (UMul (qu a) (qu b)))
  | Raise e => raise e
  end.

(** ** numpy: [np.logspace] *)

Definition linspace (start stop : R) (num : nat) : list R :=
  map (fun i => start + INR i * ((stop - start) / INR (num - 1))) (seq 0 num).

Definition logspace (start stop : R) (num : nat) : list R :=
  map (Rpower 10) (linspace start stop num).

(** [np.log10] *)
Definition log10 (x : R) : R := ln x / ln 10.

(** ** Python: sequence indexing, unpacking, names *)

(** [pars[i]] for a constant [i >= 0] *)
Definition getitem (l : list R) (i : nat) : M R :=
  match nth_error l i with
  | Some v => ret v
  | None => raise IndexError
  end.

(** [data[key]] *)
Definition table_getitem (t : Table) (key : string) : M QArr :=
  match find (fun c => String.eqb (fst c) key) t with
  | Some c => ret (snd c)
  | None => raise (KeyError key)
  end.

(** The ten parameters of the sherpa model, in the order of [__init__]. *)
Record Pars : Type := mkPars {
  index : R; ref : R; ampl : R; cutoff : R; beta : R;
  TFIR : R; uFIR : R; TNIR : R; uNIR : R; verbose : R
}.

(** [index,ref,ampl,cutoff,beta,TFIR,uFIR,TNIR,uNIR,verbose = p] *)
Definition unpack (p : list R) : M Pars :=
  match p with
  | [a; b; c; d; e; f; g; h; i; j] => ret (mkPars a b c d e f g h i j)
  | _ => raise (ValueError "wrong number of values to unpack")
  end.

(** The default values of the parameters ([InverseCompton.__init__]). *)
Definition default_pars : list R := [2; 20; 1; 0; 1; 70; 0; 3800; 0; 0].

(** The names sherpamod.py binds at module level (its imports, [eV],
    [_mergex] and the class).  None of them holds an array. *)
Definition sherpamod_globals : list string :=
  ["np"; "u"; "Parameter"; "tinyval"; "ArithmeticModel"; "modelCacher1d";
   "eV"; "models"; "trapz_loglog"; "_mergex"; "InverseCompton"].

(** Reading a name where an array is expected: the local variables of the
    function, then the names of the module; a name bound in neither is a
    NameError. *)
Definition load_name (locals : list (string * loc)) (name : string) : M loc :=
  match find (fun b => String.eqb (fst b) name) locals with
  | Some b => ret (snd b)
  | None =>
      if existsb (String.eqb name) sherpamod_globals
      then raise (AttributeError "size")
      else raise (NameError name)
  end.

Section Programs.

Variable lib : library.

(** *** Calls to the libraries *)

(** [u.<name>] *)
Definition u_attr (name : string) : M Unit :=
  extern (C_units_attr name) VUnit (fun _ => units_attr lib name).

(** [q.to(target)]: the library gives the factor between the two units. *)
Definition to_factor (src dst : Unit) : M R :=
  extern (C_to src dst) VFactor (fun _ => units_factor lib src dst).

Definition to_arr (q : QArr) (target : Unit) : M QArr :=
  k <- to_factor (qu q) target ;;
  ret (mkQA (map (Rmult k) (qv q)) target).

Definition to_quantity (q : Quantity) (target : Unit) : M Quantity :=
  k <- to_factor (qunit q) target ;;
  ret (mkQ (k * qval q) target).

Definition PowerLaw (amplitude e_0 : Quantity) (alpha : R) : M obj :=
  extern (C_PowerLaw amplitude e_0 alpha) VObj
    (fun tr => new_PowerLaw lib tr amplitude e_0 alpha).

Definition ExponentialCutoffPowerLaw (amplitude e_0 : Quantity) (alpha : R)
    (e_cutoff : Quantity) (beta : option R) : M obj :=
  extern (C_ExponentialCutoffPowerLaw amplitude e_0 alpha e_cutoff beta) VObj
    (fun tr =>
       new_ExponentialCutoffPowerLaw lib tr amplitude e_0 alpha e_cutoff beta).

Definition InverseCompton (pdist : obj) (seed_photon_fields : list seed)
    (log10gmin log10gmax ngamd : option Z) : M obj :=
  extern
    (C_InverseCompton pdist seed_photon_fields log10gmin log10gmax ngamd) VObj
    (fun tr =>
       new_InverseCompton lib tr pdist seed_photon_fields
         log10gmin log10gmax ngamd).

Definition set_We (ic : obj) (We : Quantity) (Eemin : option Quantity)
    : M unit :=
  extern (C_set_We ic We Eemin) (fun _ => VNone)
    (fun tr => ic_set_We lib tr ic We Eemin).

Definition flux (ic : obj) (energy : flux_arg) (distance : option Quantity)
    : M QArr :=
  extern (C_flux ic energy distance) VQArr
    (fun tr => ic_flux lib tr ic energy distance).

Definition call_pdist (pdist : obj) (e : QArr) : M QArr :=
  extern (C_pdist_call pdist e) VQArr (fun tr => pdist_call lib tr pdist e).

Definition trapz_loglog (y x : QArr) : M Quantity :=
  extern (C_trapz_loglog y x) VQuantity
    (fun tr => utils_trapz_loglog lib tr y x).

Definition thawedpars (self : obj) : M (list R) :=
  extern (C_thawedpars self) VReals (fun tr => model_thawedpars lib tr self).

(** One item of a [print] statement. *)
Definition print_item (v : value) : M unit :=
  extern (C_print v) (fun _ => VNone) (fun _ => Ok tt).

(** *** sherpamod.py: [InverseCompton.calc]

    The body of the method; the result cache of sherpa's [modelCacher1d]
    around it is not part of this file.  [x] and [xhi] are the arrays sherpa
    passes, [xhi = None] when the data are not binned.  The names of the
    function that hold arrays are its parameters [x] and [xhi].  The result
    is the content of the array [photons].  [del ic] (line 88) changes
    nothing that is observed here.  Python 2's [print] evaluates and writes
    its items one after the other. *)

(** Lines 90-96 for binned data: the width of each bin times the mean of
    the flux at its two edges. *)
Definition bin_photons (outspec model : QArr) : M QArr :=
  qmul (qsub (qtail outspec) (qinit outspec))
       (qdiv_scalar (qadd (qtail model) (qinit model)) 2).

Definition calc (self : obj) (p : list R) (x : loc) (xhi : option loc)
    : M (list R) :=
  ps <- unpack p ;;                                       (* line 62 *)
  outspec <-
    match xhi with
    | None =>                                             (* line 66 *)
        keV <- u_attr "keV" ;;
        xv <- read x ;;
        ret (mkQA xv keV)
    | Some hi =>                                          (* line 68 *)
        xlo <- load_name [("x", x); ("xhi", hi)] "xlo" ;;
        m <- _mergex xlo hi false ;;
        keV <- u_attr "keV" ;;
        mv <- read m ;;
        ret (mkQA mv keV)
    end ;;
  pdist <-                                                (* lines 70-74 *)
    (if Req_dec_T (cutoff ps) 0 then
       TeV <- u_attr "TeV" ;;
       PowerLaw (mkQ (ampl ps) (UStr "1/eV")) (mkQ (ref ps) TeV) (index ps)
     else
       TeV <- u_attr "TeV" ;;
       TeV' <- u_attr "TeV" ;;
       ExponentialCutoffPowerLaw
         (mkQ (ampl ps) (UStr "1/eV")) (mkQ (ref ps) TeV) (index ps)
         (mkQ (cutoff ps) TeV') (Some (beta ps))) ;;
  fir <-                                                  (* lines 78-79 *)
    (if Rgt_dec (uFIR ps) 0 then
       K <- u_attr "K" ;;
       ev <- u_attr "ev" ;;
       cm <- u_attr "cm" ;;
       ret [SeedField "FIR" (mkQ (TFIR ps) K)
              (mkQ (uFIR ps) (UDiv ev (UPow cm 3)))]
     else ret []) ;;
  nir <-                                                  (* lines 80-81 *)
    (if Rgt_dec (uNIR ps) 0 then
       K <- u_attr "K" ;;
       ev <- u_attr "ev" ;;
       cm <- u_attr "cm" ;;
       ret [SeedField "NIR" (mkQ (TNIR ps) K)
              (mkQ (uNIR ps) (UDiv ev (UPow cm 3)))]
     else ret []) ;;
  let seedspec := [SeedName "CMB"] ++ fir ++ nir in
  ic <- InverseCompton pdist seedspec                     (* lines 83-84 *)
          (Some 5%Z) (Some 10%Z) (Some 100%Z) ;;
  f <- flux ic (EArr outspec) None ;;                     (* line 86 *)
  model <- to_arr f (UStr "1/(s cm2 keV)") ;;
  photons <-                                              (* lines 92-96 *)
    match xhi with
    | None =>
        ym <- qmul outspec model ;;
        r <- to_arr ym (UStr "1/(s cm2)") ;;
        ret (qv r)
    | Some _ =>
        ym <- bin_photons outspec model ;;
        r <- to_arr ym (UStr "1/(s cm2)") ;;
        ret (qv r)
    end ;;
  (if Req_dec_T (verbose ps) 0 then ret tt               (* lines 98-99 *)
   else
     tp <- thawedpars self ;;
     print_item (VReals tp) ;;;
     ym <- qmul outspec model ;;
     t <- trapz_loglog ym outspec ;;
     t' <- to_quantity t (UStr "erg/(s cm2)") ;;
     print_item (VQuantity t')) ;;;
  ret photons.

(** *** CrabNebula_IC_We.py: [ElectronIC]

    [pars] is the parameter vector of the sampler, [data] the table read
    from the data file.  [10**v] is [Rpower 10 v]. *)

Definition ElectronIC (pars : list R) (data : Table)
    : M (QArr * (QArr * QArr)) :=
  p0 <- getitem pars 0 ;;                                 (* line 19 *)
  erg <- u_attr "erg" ;;
  let We := mkQ (Rpower 10 p0) erg in
  alpha <- getitem pars 1 ;;                              (* line 20 *)
  p2 <- getitem pars 2 ;;                                 (* line 21 *)
  TeV <- u_attr "TeV" ;;
  let e_cutoff := mkQ (Rpower 10 p2) TeV in
  eV <- u_attr "eV" ;;                                    (* line 24 *)
  TeV' <- u_attr "TeV" ;;
  ECPL <- ExponentialCutoffPowerLaw
            (mkQ 1 (UDiv UOne eV)) (mkQ 10 TeV') alpha e_cutoff None ;;
  IC <- InverseCompton ECPL [SeedName "CMB"] None None None ;;  (* line 25 *)
  TeV'' <- u_attr "TeV" ;;                                (* line 26 *)
  set_We IC We (Some (mkQ 1 TeV'')) ;;;
  kpc <- u_attr "kpc" ;;                                  (* line 30 *)
  f <- flux IC (ETable data) (Some (mkQ 2 kpc)) ;;
  col <- table_getitem data "flux" ;;
  model <- to_arr f (qu col) ;;
  eV' <- u_attr "eV" ;;                                   (* line 33 *)
  let elec_energy := mkQA (logspace 11 15 100) eV' in
  nelec <- call_pdist ECPL elec_energy ;;                 (* line 34 *)
  ret (model, (elec_energy, nelec)).                      (* line 39 *)

End Programs.

(** ** The other functions of the two files *)

(** *** sherpamod.py: [InverseCompton.__init__]

    A sherpa [Parameter] ([Param] here) as the constructor is given it: the
    name of the model, its own name, the value, the bounds [min] and [max]
    where they are passed, [frozen] (False unless passed) and [units]
    (empty unless passed).  The model keeps the parameters in the order of
    the tuple handed to [ArithmeticModel.__init__] (lines 46-47), and the
    two attributes of lines 48-49. *)

Record Param : Type := mkParam {
  par_model : string;
  par_name : string;
  par_val : R;
  par_min : option R;
  par_max : option R;
  par_frozen : bool;
  par_units : string
}.

Record Model : Type := mkModel {
  model_name : string;
  pars : list Param;
  _use_caching : bool;
  cache : Z
}.

Definition InverseCompton_init (name : string) : Model :=
  let index := mkParam name "index" 2 (Some (-10)) (Some 10) false "" in
  let ref := mkParam name "ref" 20 (Some 0) None true "TeV" in
  let ampl := mkParam name "ampl" 1 (Some 0) None false "1/eV" in
  let cutoff := mkParam name "cutoff" 0 (Some 0) None true "TeV" in
  let beta := mkParam name "beta" 1 (Some 0) (Some 10) true "" in
  let TFIR := mkParam name "TFIR" 70 (Some 0) None true "K" in
  let uFIR := mkParam name "uFIR" 0 (Some 0) None true "eV/cm3" in
  let TNIR := mkParam name "TNIR" 3800 (Some 0) None true "K" in
  let uNIR := mkParam name "uNIR" 0 (Some 0) None true "eV/cm3" in
  let verbose := mkParam name "verbose" 0 (Some 0) None true "" in
  mkModel name
    [index; ref; ampl; cutoff; beta; TFIR; uFIR; TNIR; uNIR; verbose]
    true 10.

(** [self.<name>] for a parameter of the model. *)
Definition get_par (self : Model) (name : string) : M Param :=
  match find (fun p => String.eqb (par_name p) name) (pars self) with
  | Some p => ret p
  | None => raise (AttributeError name)
  end.

(** The model with the parameter of that name replaced. *)
Definition put_par (self : Model) (p : Param) : Model :=
  mkModel (model_name self)
    (map (fun q => if String.eqb (par_name q) (par_name p) then p else q)
         (pars self))
    (_use_caching self) (cache self).

(** [xlo,xhi=args] *)
Definition unpack_args (args : list loc) : M (loc * loc) :=
  match args with
  | [xlo; xhi] => ret (xlo, xhi)
  | _ => raise (ValueError "wrong number of values to unpack")
  end.

Section Callers.

Variable lib : library.

(** sherpa's [Parameter.set]: the parameter with its new value, or an
    exception when sherpa refuses the value. *)
Variable Param_set : Param -> R -> result Param.

(** *** sherpamod.py: [InverseCompton.guess]

    [self] is the object sherpa knows, [m] its state, [dep] the measured
    values and [args] the arrays sherpa passes after it; [**kwargs] is not
    used.  [self.calc] is the body of [calc] above.  A plain array handed
    to [trapz_loglog] is a quantity without unit.  The result is the state
    of the model after [self.ampl.set]. *)

Definition guess (self : obj) (m : Model) (dep : loc) (args : list loc)
    : M Model :=
  a <- unpack_args args ;;                                (* line 53 *)
  let xlo := fst a in
  let xhi := snd a in
  model <- calc lib self (map par_val (pars m)) xlo (Some xhi) ;;  (* 54 *)
  xlov <- read xlo ;;                                     (* line 55 *)
  modflux <- trapz_loglog lib (mkQA model UOne) (mkQA xlov UOne) ;;
  d <- np_sub xhi xlo ;;                                  (* line 56 *)
  y <- np_mul dep d ;;
  yv <- read y ;;
  xlov' <- read xlo ;;
  obsflux <- trapz_loglog lib (mkQA yv UOne) (mkQA xlov' UOne) ;;
  ampl <- get_par m "ampl" ;;                             (* line 57 *)
  ampl' <- lift (Param_set ampl
                   (par_val ampl * qval obsflux / qval modflux)) ;;
  ret (put_par m ampl').

End Callers.

(** *** CrabNebula_IC_We.py: [lnprior] and the start of the main block

    A log-probability is a float that may be infinite. *)

Inductive xfloat : Type :=
| Fin (r : R)
| PInf
| NInf
| NaN.

(** [a + b] on such floats. *)
Definition xadd (a b : xfloat) : xfloat :=
  match a, b with
  | NaN, _ | _, NaN => NaN
  | Fin x, Fin y => Fin (x + y)
  | PInf, NInf | NInf, PInf => NaN
  | PInf, _ | _, PInf => PInf
  | NInf, _ | _, NInf => NInf
  end.

Section Prior.

(** [naima.uniform_prior(value, umin, umax)] *)
Variable uniform_prior : R -> xfloat -> xfloat -> result xfloat.

Definition lnprior (pars : list R) : M xfloat :=
  p0 <- getitem pars 0 ;;                                 (* line 49 *)
  a <- lift (uniform_prior p0 (Fin 0) PInf) ;;
  p1 <- getitem pars 1 ;;                                 (* line 50 *)
  b <- lift (uniform_prior p1 (Fin (-1)) (Fin 5)) ;;
  ret (xadd a b).

End Prior.

(** [p0=np.array((40,3.0,np.log10(30),))] (line 58).  What follows in the
    main block hands [ElectronIC], [lnprior] and [p0] to the sampler and
    writes its results to files. *)
Definition p0 : list R := [40; 3; log10 30].

(** * The vocabulary of the statements *)

(** ** The log of a run *)

(** What running [m] from [w] appends to the log of library calls. *)
Definition calls_of {A} (m : M A) (w : world) : list event :=
  skipn (length (trace w)) (trace (snd (m w))).

(** Computations that agree on every state. *)
Definition same {A} (m m' : M A) : Prop := forall w, m w = m' w.

(** A computation that makes no library call. *)
Definition quiet {A} (m : M A) : Prop :=
  forall w, trace (snd (m w)) = trace w.

(** [logs P R m]: whatever the libraries answer, running [m] only appends
    to the log; every appended event satisfies [P]; a value it returns
    satisfies [R]; and if a logged call raised, [m] raises the same
    exception. *)
Definition logs {A} (P : event -> Prop) (R : A -> Prop) (m : M A) : Prop :=
  forall w, exists evs,
    trace (snd (m w)) = trace w ++ evs /\
    Forall P evs /\
    (forall a, fst (m w) = Ok a -> R a) /\
    (forall c e, In (c, Raise e) evs -> fst (m w) = Raise e).

(** The calls on model objects, as opposed to unit lookups and unit
    conversions. *)
Definition is_model_call (c : call) : bool :=
  match c with
  | C_units_attr _ => false
  | C_to _ _ => false
  | _ => true
  end.

Definition model_calls (evs : list event) : list call :=
  map fst (filter (fun ev => is_model_call (fst ev)) evs).

(** The same calls with what they answered. *)
Definition model_events (evs : list event) : list event :=
  filter (fun ev => is_model_call (fst ev)) evs.

Definition is_pdist_ctor (c : call) : bool :=
  match c with
  | C_PowerLaw _ _ _ => true
  | C_ExponentialCutoffPowerLaw _ _ _ _ _ => true
  | _ => false
  end.

Definition is_ic_ctor (c : call) : bool :=
  match c with
  | C_InverseCompton _ _ _ _ _ => true
  | _ => false
  end.

(** ** Energy bins *)

(** The boundaries of [N] bins are [xlo[i]] and [xhi[i]] for [i < N]. *)
Definition is_boundary (xlo xhi : list R) (v : R) : Prop :=
  exists i, (i < length xlo)%nat /\ (v = nth i xlo 0 \/ v = nth i xhi 0).

(** The author's assumption: [xlo[n] = xhi[n-1]]. *)
Definition contiguous (xlo xhi : list R) : Prop :=
  forall n, (1 <= n < length xlo)%nat -> nth n xlo 0 = nth (n - 1) xhi 0.

(** Each bin's lower edge is at most its upper edge. *)
Definition ordered (xlo xhi : list R) : Prop :=
  forall n, (n < length xlo)%nat -> nth n xlo 0 <= nth n xhi 0.

(** The content of [mid = (xlo+xhi)/2.] for arrays of one length. *)
Definition midpoints (xlo xhi : list R) : list R :=
  map (fun v => v / 2) (zip_with Rplus xlo xhi).

(** Lower edge and midpoint of every bin, in the order of the bins. *)
Fixpoint edges_and_mids (xlo xhi : list R) : list R :=
  match xlo, xhi with
  | a :: xlo', b :: xhi' => a :: (a + b) / 2 :: edges_and_mids xlo' xhi'
  | _, _ => []
  end.

(** Following the spec's words, "trapezoidal integration in log-log
    space": over one bin, the integral of the power law through the two
    points [(x0, y0)] and [(x1, y1)]. *)
Definition loglog_trapezoid (x0 x1 y0 y1 : R) : R :=
  let b := ln (y1 / y0) / ln (x1 / x0) in
  if Req_dec_T (b + 1) 0 then x0 * y0 * ln (x1 / x0)
  else y0 * (x1 * Rpower (x1 / x0) b - x0) / (b + 1).

(** ** The calls of [calc] *)

(** The parameter vector sherpa passes for the values [ps]. *)
Definition pars_list (ps : Pars) : list R :=
  [index ps; ref ps; ampl ps; cutoff ps; beta ps;
   TFIR ps; uFIR ps; TNIR ps; uNIR ps; verbose ps].

(** What the flux method promises: one value for each energy. *)
Definition flux_one_per_energy (lib : library) : Prop :=
  forall tr ic e d F,
    ic_flux lib tr ic (EArr e) d = Ok F -> length (qv F) = length (qv e).

(** The constructor call for the parameters [ps]: a power law when the
    cutoff is 0, an exponential-cutoff power law otherwise, [TeV] being the
    unit the units module answers for that name. *)
Definition claimed_pdist_call (ps : Pars) (TeV : Unit) (c : call) : Prop :=
  (cutoff ps = 0 /\
   c = C_PowerLaw (mkQ (ampl ps) (UStr "1/eV")) (mkQ (ref ps) TeV) (index ps))
  \/
  (cutoff ps <> 0 /\
   c = C_ExponentialCutoffPowerLaw
         (mkQ (ampl ps) (UStr "1/eV")) (mkQ (ref ps) TeV) (index ps)
         (mkQ (cutoff ps) TeV) (Some (beta ps))).

(** An event that constructs a particle distribution does it that way. *)
Definition pdist_as_claimed (lib : library) (ps : Pars) (ev : event) : Prop :=
  is_pdist_ctor (fst ev) = true ->
  exists TeV, units_attr lib "TeV" = Ok TeV /\
              claimed_pdist_call ps TeV (fst ev).

(** One optional blackbody field of the seed list: present, with its
    temperature in K and its energy density in [ev/cm**3], exactly when the
    energy density is positive. *)
Definition gated_field (lib : library) (name : string) (T u : R)
    (l : list seed) : Prop :=
  (u > 0 /\
   exists K ev cm,
     units_attr lib "K" = Ok K /\ units_attr lib "ev" = Ok ev /\
     units_attr lib "cm" = Ok cm /\
     l = [SeedField name (mkQ T K) (mkQ u (UDiv ev (UPow cm 3)))])
  \/
  (~ u > 0 /\ l = []).

(** An event that constructs a scattering model gives it the CMB, the
    gated FIR field and the gated NIR field, in this order. *)
Definition seeds_as_claimed (lib : library) (ps : Pars) (ev : event) : Prop :=
  match fst ev with
  | C_InverseCompton _ seeds a b c =>
      a = Some 5%Z /\ b = Some 10%Z /\ c = Some 100%Z /\
      exists fir nir,
        seeds = [SeedName "CMB"] ++ fir ++ nir /\
        gated_field lib "FIR" (TFIR ps) (uFIR ps) fir /\
        gated_field lib "NIR" (TNIR ps) (uNIR ps) nir
  | _ => True
  end.

(** ** The calls of [ElectronIC] *)

(** The two calls that take the parameters [p0], [p1], [p2]: the particle
    distribution and [set_We].  [ElectronIC] builds no plain power law. *)
Definition ElectronIC_call_as_claimed (lib : library) (p0 p1 p2 : R)
    (ev : event) : Prop :=
  match fst ev with
  | C_ExponentialCutoffPowerLaw a e al ec b =>
      exists eV TeV,
        units_attr lib "eV" = Ok eV /\ units_attr lib "TeV" = Ok TeV /\
        a = mkQ 1 (UDiv UOne eV) /\ e = mkQ 10 TeV /\ al = p1 /\
        ec = mkQ (Rpower 10 p2) TeV /\ b = None
  | C_set_We _ We Eemin =>
      exists erg TeV,
        units_attr lib "erg" = Ok erg /\ units_attr lib "TeV" = Ok TeV /\
        We = mkQ (Rpower 10 p0) erg /\ Eemin = Some (mkQ 1 TeV)
  | C_PowerLaw _ _ _ => False
  | _ => True
  end.

(** ** The other functions *)

(** [keeps n R m]: started with at least [n] arrays, [m] calls no library,
    leaves the first [n] arrays as they are, and a value it returns
    satisfies [R]. *)
Definition keeps {A} (n : nat) (R : A -> Prop) (m : M A) : Prop :=
  forall w, (n <= length (heap w))%nat ->
    trace (snd (m w)) = trace w /\
    (n <= length (heap (snd (m w))))%nat /\
    firstn n (heap (snd (m w))) = firstn n (heap w) /\
    (forall a, fst (m w) = Ok a -> R a).

(** The events of the verbose report of [calc] (lines 98-99). *)
Definition is_report (ev : event) : Prop :=
  match fst ev with
  | C_thawedpars _ => True
  | C_print _ => True
  | C_trapz_loglog _ _ => True
  | C_to _ dst => dst = UStr "erg/(s cm2)"
  | _ => False
  end.

(** With no extra field: no lookup of the units of one, and the CMB alone. *)
Definition no_extra_field (ev : event) : Prop :=
  match fst ev with
  | C_units_attr n => n <> "K" /\ n <> "ev" /\ n <> "cm"
  | C_InverseCompton _ seeds _ _ _ => seeds = [SeedName "CMB"]
  | _ => True
  end.

(** The order of floats that may be infinite; NaN compares with nothing. *)
Definition xle (a b : xfloat) : Prop :=
  match a, b with
  | NaN, _ | _, NaN => False
  | NInf, _ => True
  | _, PInf => True
  | Fin x, Fin y => x <= y
  | _, _ => False
  end.

(** What a uniform prior answers: the log-probability 0 inside
    [umin, umax] and minus infinity outside. *)
Definition is_uniform_prior
    (up : R -> xfloat -> xfloat -> result xfloat) : Prop :=
  forall v lo hi,
    (xle lo (Fin v) /\ xle (Fin v) hi -> up v lo hi = Ok (Fin 0)) /\
    (~ (xle lo (Fin v) /\ xle (Fin v) hi) -> up v lo hi = Ok NInf).

(** The variable of [calc] (line 62) of that name. *)
Definition Pars_get (ps : Pars) (name : string) : option R :=
  if String.eqb name "index" then Some (index ps)
  else if String.eqb name "ref" then Some (ref ps)
  else if String.eqb name "ampl" then Some (ampl ps)
  else if String.eqb name "cutoff" then Some (cutoff ps)
  else if String.eqb name "beta" then Some (beta ps)
  else if String.eqb name "TFIR" then Some (TFIR ps)
  else if String.eqb name "uFIR" then Some (uFIR ps)
  else if String.eqb name "TNIR" then Some (TNIR ps)
  else if String.eqb name "uNIR" then Some (uNIR ps)
  else if String.eqb name "verbose" then Some (verbose ps)
  else None.

(** A value within the bounds the parameter was declared with. *)
Definition within_bounds (p : Param) : Prop :=
  match par_min p with Some lo => lo <= par_val p | None => True end /\
  match par_max p with Some hi => par_val p <= hi | None => True end.

(** ** A library and data to run the programs on

    The units module binds the names astropy.units defines among those the
    sources use ([eV], not [ev]); every conversion factor is 1; a
    constructor returns a new object; [flux] and the particle distribution
    answer 1 at every energy. *)

Definition astropy_units_names : list string :=
  ["eV"; "keV"; "TeV"; "erg"; "K"; "cm"; "kpc"].

Definition demo_units_attr (name : string) : result Unit :=
  if existsb (String.eqb name) astropy_units_names
  then Ok (UName name)
  else Raise (AttributeError name).

Definition ones (l : list R) : list R := map (fun _ => 1) l.

Definition demo_flux (energy : flux_arg) : result QArr :=
  match energy with
  | EArr e => Ok (mkQA (ones (qv e)) (UStr "1/(s cm2 eV)"))
  | ETable t =>
      match find (fun c => String.eqb (fst c) "energy") t with
      | Some c => Ok (mkQA (ones (qv (snd c))) (UStr "1/(s cm2 eV)"))
      | None => Raise (KeyError "energy")
      end
  end.

Definition demo_lib : library := {|
  units_attr := demo_units_attr;
  units_factor := fun _ _ => Ok 1;
  new_PowerLaw := fun tr _ _ _ => Ok (length tr);
  new_ExponentialCutoffPowerLaw := fun tr _ _ _ _ _ => Ok (length tr);
  new_InverseCompton := fun tr _ _ _ _ _ => Ok (length tr);
  ic_set_We := fun _ _ _ _ => Ok tt;
  ic_flux := fun _ _ energy _ => demo_flux energy;
  pdist_call := fun _ _ e => Ok (mkQA (ones (qv e)) (UStr "1/eV"));
  utils_trapz_loglog := fun _ y x => Ok (mkQ 0 (UMul (qu y) (qu x)));
  model_thawedpars := fun _ _ => Ok []
|}.

(** The same library with a [flux] that fails. *)
Definition flux_fails_lib : library := {|
  units_attr := demo_units_attr;
  units_factor := fun _ _ => Ok 1;
  new_PowerLaw := fun tr _ _ _ => Ok (length tr);
  new_ExponentialCutoffPowerLaw := fun tr _ _ _ _ _ => Ok (length tr);
  new_InverseCompton := fun tr _ _ _ _ _ => Ok (length tr);
  ic_set_We := fun _ _ _ _ => Ok tt;
  ic_flux := fun _ _ _ _ => Raise (LibraryError "flux");
  pdist_call := fun _ _ e => Ok (mkQA (ones (qv e)) (UStr "1/eV"));
  utils_trapz_loglog := fun _ y x => Ok (mkQ 0 (UMul (qu y) (qu x)));
  model_thawedpars := fun _ _ => Ok []
|}.

(** Two contiguous bins [1,2] and [2,3], as the arrays [xlo] and [xhi]. *)
Definition two_bins : world := mkWorld [[1; 2]; [2; 3]] [].

(** The bins [1,2] and [2,4]. *)
Definition two_uneven_bins : world := mkWorld [[1; 2]; [2; 4]] [].

(** The bins [1,2] and [3,4], which leave a gap, and two empty arrays. *)
Definition two_bins_apart : world := mkWorld [[1; 3]; [2; 4]] [].

Definition no_bins : world := mkWorld [[]; []] [].

(** One array of two energies. *)
Definition two_points : world := mkWorld [[1; 2]] [].

(** No array at all. *)
Definition empty_world : world := mkWorld [] [].

(** A table with two measurements. *)
Definition crab_data : Table :=
  [("energy", mkQA [1; 10] (UName "TeV"));
   ("flux", mkQA [3; 1] (UStr "1/(cm2 s TeV)"))].

(** The default parameters with [uFIR = 0.2]. *)
Definition pars_with_FIR : Pars := mkPars 2 20 1 0 1 70 (2 / 10) 3800 0 0.

(** Three lower edges and one upper edge. *)
Definition three_and_one : world := mkWorld [[1; 2; 3]; [5]] [].

(** Three lower edges and two upper edges. *)
Definition three_and_two : world := mkWorld [[1; 2; 3]; [4; 5]] [].

(** The bins [3,2] and [1,4]: out of order and overlapping. *)
Definition two_bins_unordered : world := mkWorld [[3; 1]; [2; 4]] [].

(** The example library with a [flux] that answers one value, whatever
    the energies. *)
Definition single_flux_lib : library := {|
  units_attr := demo_units_attr;
  units_factor := fun _ _ => Ok 1;
  new_PowerLaw := fun tr _ _ _ => Ok (length tr);
  new_ExponentialCutoffPowerLaw := fun tr _ _ _ _ _ => Ok (length tr);
  new_InverseCompton := fun tr _ _ _ _ _ => Ok (length tr);
  ic_set_We := fun _ _ _ _ => Ok tt;
  ic_flux := fun _ _ _ _ => Ok (mkQA [7] (UStr "1/(s cm2 eV)"));
  pdist_call := fun _ _ e => Ok (mkQA (ones (qv e)) (UStr "1/eV"));
  utils_trapz_loglog := fun _ y x => Ok (mkQ 0 (UMul (qu y) (qu x)));
  model_thawedpars := fun _ _ => Ok []
|}.

(** The example library with a [flux] that answers three values, whatever
    the energies. *)
Definition three_flux_lib : library := {|
  units_attr := demo_units_attr;
  units_factor := fun _ _ => Ok 1;
  new_PowerLaw := fun tr _ _ _ => Ok (length tr);
  new_ExponentialCutoffPowerLaw := fun tr _ _ _ _ _ => Ok (length tr);
  new_InverseCompton := fun tr _ _ _ _ _ => Ok (length tr);
  ic_set_We := fun _ _ _ _ => Ok tt;
  ic_flux := fun _ _ _ _ => Ok (mkQA [7; 8; 9] (UStr "1/(s cm2 eV)"));
  pdist_call := fun _ _ e => Ok (mkQA (ones (qv e)) (UStr "1/eV"));
  utils_trapz_loglog := fun _ y x => Ok (mkQ 0 (UMul (qu y) (qu x)));
  model_thawedpars := fun _ _ => Ok []
|}.

(** The table of two measurements without its [flux] column. *)
Definition energy_only : Table := [("energy", mkQA [1; 10] (UName "TeV"))].

(** The same order as a test. *)
Definition xleb (a b : xfloat) : bool :=
  match a, b with
  | NaN, _ | _, NaN => false
  | NInf, _ => true
  | _, PInf => true
  | Fin x, Fin y => if Rle_dec x y then true else false
  | _, _ => false
  end.

(** A uniform prior to run [lnprior] on. *)
Definition demo_uniform_prior (v : R) (lo hi : xfloat) : result xfloat :=
  Ok (if xleb lo (Fin v) && xleb (Fin v) hi then Fin 0 else NInf).

(** A [Parameter.set] that accepts every value. *)
Definition set_any (p : Param) (v : R) : result Param :=
  Ok (mkParam (par_model p) (par_name p) v (par_min p) (par_max p)
              (par_frozen p) (par_units p)).

(** The array of measured values beside two contiguous bins. *)
Definition two_bins_and_counts : world :=
  mkWorld [[1; 2]; [2; 3]; [7; 9]] [].

(** * Properties *)

Unset Implicit Arguments.

(** ** Lists *)

Lemma nth_error_upd_eq A (n : nat) (v : A) (l : list A) :
  (n < length l)%nat -> nth_error (upd n v l) n = Some v.
Proof.
  revert n; induction l as [|h t IH]; intros [|n]; simpl; intros H;
    try lia; auto.
  apply IH; lia.
Qed.

Lemma nth_error_upd_ne A (n m : nat) (v : A) (l : list A) :
  n <> m -> nth_error (upd n v l) m = nth_error l m.
Proof.
  revert n m; induction l as [|h t IH]; intros [|n] [|m]; simpl; intros H;
    auto; try congruence.
Qed.

Lemma upd_app_last A (v d : A) (l : list A) :
  upd (length l) v (l ++ [d]) = l ++ [v].
Proof.
  induction l as [|h t IH]; simpl; auto. now rewrite IH.
Qed.

Lemma nth_error_snoc A (l : list A) (a : A) :
  nth_error (l ++ [a]) (length l) = Some a.
Proof.
  rewrite nth_error_app2 by lia. now rewrite Nat.sub_diag.
Qed.

Lemma nth_error_snoc_old A (l : list A) (a b : A) (n : nat) :
  nth_error l n = Some b -> nth_error (l ++ [a]) n = Some b.
Proof.
  intros H. rewrite nth_error_app1; auto.
  apply nth_error_Some. congruence.
Qed.

Lemma nth_error_lt A (l : list A) (n : nat) (a : A) :
  nth_error l n = Some a -> (n < length l)%nat.
Proof.
  intros H. apply nth_error_Some. congruence.
Qed.

Lemma skipn_repeat A (v : A) (n m : nat) :
  skipn n (repeat v m) = repeat v (m - n).
Proof.
  revert m; induction n as [|n IH]; intros [|m]; simpl; auto.
Qed.

Lemma nth_last A (l : list A) (d : A) :
  nth (length l - 1) l d = last l d.
Proof.
  induction l as [|h [|h' t] IH]; simpl in *; auto.
  rewrite <- IH. now rewrite Nat.sub_0_r.
Qed.

Lemma py_index_last (n : nat) :
  (1 <= n)%nat -> py_index n (-1) = Some (n - 1)%nat.
Proof.
  intros H. unfold py_index.
  replace (0 <=? -1)%Z with false by reflexivity.
  destruct (Z.leb_spec (- Z.of_nat n) (-1)); [|lia].
  f_equal. lia.
Qed.

(** ** One step of a computation *)

Lemma bind_step A B (m : M A) (k : A -> M B) (w w1 : world) (a : A) :
  m w = (Ok a, w1) -> bind m k w = k a w1.
Proof.
  intros H. unfold bind. now rewrite H.
Qed.

Lemma bind_Ok_inv A B (m : M A) (k : A -> M B) (w w' : world) (b : B) :
  bind m k w = (Ok b, w') ->
  exists a w1, m w = (Ok a, w1) /\ k a w1 = (Ok b, w').
Proof.
  unfold bind. destruct (m w) as [[a|e] w1]; intros H.
  - now exists a, w1.
  - discriminate.
Qed.

Lemma read_spec (l : loc) (a : list R) (w : world) :
  nth_error (heap w) l = Some a -> read l w = (Ok a, w).
Proof.
  intros H. unfold read. now rewrite H.
Qed.

Lemma write_spec (l : loc) (a b : list R) (w : world) :
  nth_error (heap w) l = Some b ->
  write l a w = (Ok tt, mkWorld (upd l a (heap w)) (trace w)).
Proof.
  intros H. unfold write. now rewrite H.
Qed.

Lemma np_size_spec (l : loc) (a : list R) (w : world) :
  nth_error (heap w) l = Some a -> np_size l w = (Ok (length a), w).
Proof.
  intros H. unfold np_size. now rewrite (bind_step _ _ _ _ _ _ _ (read_spec _ _ _ H)).
Qed.

Lemma np_copy_spec (l : loc) (a : list R) (w : world) :
  nth_error (heap w) l = Some a ->
  np_copy l w = (Ok (length (heap w)), mkWorld (heap w ++ [a]) (trace w)).
Proof.
  intros H. unfold np_copy. now rewrite (bind_step _ _ _ _ _ _ _ (read_spec _ _ _ H)).
Qed.

Lemma np_setslice_spec (x src : loc) (n : nat) (a s : list R) (w : world) :
  nth_error (heap w) x = Some a ->
  nth_error (heap w) src = Some s ->
  length s = Nat.min n (length a) ->
  np_setslice_upto x n src w =
  (Ok tt, mkWorld (upd x (s ++ skipn (length s) a) (heap w)) (trace w)).
Proof.
  intros Hx Hs Hl. unfold np_setslice_upto.
  rewrite (bind_step _ _ _ _ _ _ _ (read_spec _ _ _ Hx)).
  rewrite (bind_step _ _ _ _ _ _ _ (read_spec _ _ _ Hs)).
  rewrite <- Hl, Nat.eqb_refl. now apply write_spec with a.
Qed.

Lemma np_getitem_last (l : loc) (a : list R) (w : world) :
  nth_error (heap w) l = Some a -> (1 <= length a)%nat ->
  np_getitem l (-1) w = (Ok (last a 0), w).
Proof.
  intros H Hl. unfold np_getitem.
  rewrite (bind_step _ _ _ _ _ _ _ (read_spec _ _ _ H)).
  rewrite py_index_last by assumption. now rewrite nth_last.
Qed.

Lemma np_setitem_last (l : loc) (a : list R) (d v : R) (w : world) :
  nth_error (heap w) l = Some (a ++ [d]) ->
  np_setitem l (-1) v w =
  (Ok tt, mkWorld (upd l (a ++ [v]) (heap w)) (trace w)).
Proof.
  intros H. unfold np_setitem.
  rewrite (bind_step _ _ _ _ _ _ _ (read_spec _ _ _ H)).
  rewrite py_index_last by (rewrite length_app; simpl; lia).
  rewrite length_app. simpl.
  replace (length a + 1 - 1)%nat with (length a) by lia.
  rewrite upd_app_last. now apply write_spec with (a ++ [d]).
Qed.

(** ** [_mergex] *)

Lemma upd_twice A (n : nat) (v v' : A) (l : list A) :
  upd n v' (upd n v l) = upd n v' l.
Proof.
  revert n; induction l as [|h t IH]; intros [|n]; simpl; auto.
  now rewrite IH.
Qed.

Lemma upd_app_mid A (h : list A) (a v b : A) :
  upd (length h) v ((h ++ [a]) ++ [b]) = (h ++ [v]) ++ [b].
Proof.
  induction h as [|x t IH]; simpl; auto. now rewrite IH.
Qed.

(** The state after lines 22-25: the new array [x] is allocated after the
    existing ones and holds [xlo] followed by [xhi[-1]]; the copy of [xlo]
    follows it.  What remains is the [if midpoints] of lines 27-32. *)
Lemma mergex_run (mp : bool) (w : world) (lo hi : loc) (xlo xhi : list R) :
  nth_error (heap w) lo = Some xlo ->
  nth_error (heap w) hi = Some xhi ->
  (1 <= length xhi)%nat ->
  _mergex lo hi mp w =
  (if mp then
     s <- np_add lo hi ;;
     mid <- np_div_scalar s 2 ;;
     x' <- np_concatenate (length (heap w)) mid ;;
     np_sort x' ;;;
     ret x'
   else ret (length (heap w)))
    (mkWorld ((heap w ++ [xlo ++ [last xhi 0]]) ++ [xlo]) (trace w)).
Proof.
  intros Hlo Hhi Hn. unfold _mergex.
  rewrite (bind_step _ _ _ _ _ _ _ (np_size_spec _ _ _ Hlo)).
  unfold np_zeros at 1. unfold bind at 1, alloc at 1.
  set (w1 := mkWorld (heap w ++ [repeat 0 (length xlo + 1)]) (trace w)).
  assert (H1 : nth_error (heap w1) lo = Some xlo)
    by (apply nth_error_snoc_old, Hlo).
  rewrite (bind_step _ _ _ _ _ _ _ (np_copy_spec _ _ _ H1)).
  set (w2 := mkWorld (heap w1 ++ [xlo]) (trace w1)).
  assert (Hx : nth_error (heap w2) (length (heap w)) =
               Some (repeat 0 (length xlo + 1)))
    by (apply nth_error_snoc_old, nth_error_snoc).
  assert (Hc : nth_error (heap w2) (length (heap w1)) = Some xlo)
    by apply nth_error_snoc.
  assert (Hl : length xlo =
               Nat.min (length xlo) (length (repeat 0 (length xlo + 1))))
    by (rewrite repeat_length; lia).
  rewrite (bind_step _ _ _ _ _ _ _ (np_setslice_spec _ _ _ _ _ _ Hx Hc Hl)).
  rewrite skipn_repeat.
  replace (length xlo + 1 - length xlo)%nat with 1%nat by lia.
  simpl repeat.
  set (w3 := mkWorld (upd (length (heap w)) (xlo ++ [0]) (heap w2)) (trace w2)).
  assert (Hlt : (hi < length (heap w))%nat) by (eapply nth_error_lt; eauto).
  assert (H3 : nth_error (heap w3) hi = Some xhi).
  { simpl. rewrite nth_error_upd_ne by lia.
    now apply nth_error_snoc_old, nth_error_snoc_old. }
  rewrite (bind_step _ _ _ _ _ _ _ (np_getitem_last _ _ _ H3 Hn)).
  assert (H3x : nth_error (heap w3) (length (heap w)) = Some (xlo ++ [0])).
  { simpl. apply nth_error_upd_eq. rewrite !length_app. simpl. lia. }
  rewrite (bind_step _ _ _ _ _ _ _ (np_setitem_last _ _ _ _ _ H3x)).
  simpl heap. simpl trace.
  now rewrite upd_twice, upd_app_mid.
Qed.

Lemma mergex_run_false (w : world) (lo hi : loc) (xlo xhi : list R) :
  nth_error (heap w) lo = Some xlo ->
  nth_error (heap w) hi = Some xhi ->
  (1 <= length xhi)%nat ->
  _mergex lo hi false w =
  (Ok (length (heap w)),
   mkWorld ((heap w ++ [xlo ++ [last xhi 0]]) ++ [xlo]) (trace w)).
Proof.
  intros Hlo Hhi Hn. now rewrite (mergex_run false w lo hi xlo xhi).
Qed.

Lemma nth_snoc_edge (xlo xhi : list R) (i : nat) :
  length xlo = length xhi -> contiguous xlo xhi -> (i < length xlo)%nat ->
  nth i (xlo ++ [last xhi 0]) 0 = nth i xlo 0 /\
  nth (S i) (xlo ++ [last xhi 0]) 0 = nth i xhi 0.
Proof.
  intros Hlen Hc Hi. split.
  - now rewrite app_nth1.
  - destruct (Nat.eq_dec (S i) (length xlo)) as [E|E].
    + rewrite app_nth2 by lia. rewrite E, Nat.sub_diag. simpl.
      rewrite <- nth_last. f_equal. lia.
    + rewrite app_nth1 by lia. rewrite Hc by lia. f_equal. lia.
Qed.

(** Under contiguity the merged array holds the bin boundaries and nothing
    else. *)
Lemma edges_are_boundaries (xlo xhi : list R) :
  length xlo = length xhi -> (1 <= length xlo)%nat -> contiguous xlo xhi ->
  forall v, In v (xlo ++ [last xhi 0]) <-> is_boundary xlo xhi v.
Proof.
  intros Hlen HN Hc v.
  assert (Hedge := fun i => nth_snoc_edge xlo xhi i Hlen Hc).
  split.
  - intros Hin. apply (In_nth _ _ 0) in Hin.
    destruct Hin as (n & Hn & <-).
    rewrite length_app in Hn. simpl in Hn.
    destruct n as [|n].
    + exists 0%nat. split; [lia|]. left. apply Hedge. lia.
    + exists n. split; [lia|]. right. apply Hedge. lia.
  - intros (i & Hi & [-> | ->]).
    + rewrite <- (proj1 (Hedge i Hi)).
      apply nth_In. rewrite length_app. simpl. lia.
    + rewrite <- (proj2 (Hedge i Hi)).
      apply nth_In. rewrite length_app. simpl. lia.
Qed.

(** C5.  For arrays [xlo], [xhi] of equal size [N >= 1], [_mergex(xlo, xhi)]
    returns a new array of length [N+1] whose first [N] entries are [xlo]
    and whose last entry is [xhi[N-1]].  If the bins are contiguous, entry
    [i] and entry [i+1] are the two edges of bin [i], so the entries are
    exactly the bin boundaries.  The arrays that existed before the call,
    [xlo] and [xhi] among them, are unchanged, and no library is called. *)
Theorem mergex_boundaries (w : world) (lo hi : loc) (xlo xhi : list R) :
  nth_error (heap w) lo = Some xlo ->
  nth_error (heap w) hi = Some xhi ->
  length xlo = length xhi ->
  (1 <= length xlo)%nat ->
  exists (r : loc) (w' : world) (x : list R),
    _mergex lo hi false w = (Ok r, w') /\
    nth_error (heap w') r = Some x /\
    nth_error (heap w) r = None /\
    length x = S (length xlo) /\
    firstn (length xlo) x = xlo /\
    nth (length xlo) x 0 = nth (length xlo - 1) xhi 0 /\
    (contiguous xlo xhi ->
       (forall i, (i < length xlo)%nat ->
          nth i x 0 = nth i xlo 0 /\ nth (S i) x 0 = nth i xhi 0) /\
       (forall v, In v x <-> is_boundary xlo xhi v)) /\
    nth_error (heap w') lo = Some xlo /\
    nth_error (heap w') hi = Some xhi /\
    (forall l a, nth_error (heap w) l = Some a ->
                 nth_error (heap w') l = Some a) /\
    trace w' = trace w.
Proof.
  intros Hlo Hhi Hlen HN.
  assert (Hold : forall l a, nth_error (heap w) l = Some a ->
     nth_error ((heap w ++ [xlo ++ [last xhi 0]]) ++ [xlo]) l = Some a)
    by (intros; now apply nth_error_snoc_old, nth_error_snoc_old).
  exists (length (heap w)),
    (mkWorld ((heap w ++ [xlo ++ [last xhi 0]]) ++ [xlo]) (trace w)),
    (xlo ++ [last xhi 0]).
  split; [apply mergex_run_false; auto; lia|]. simpl.
  split; [apply nth_error_snoc_old, nth_error_snoc|].
  split; [apply nth_error_None; lia|].
  split; [rewrite length_app; simpl; lia|].
  split; [now rewrite firstn_app, firstn_all, Nat.sub_diag, app_nil_r|].
  split.
  { rewrite app_nth2 by lia. rewrite Nat.sub_diag. simpl.
    rewrite <- nth_last. f_equal. lia. }
  split.
  { intros Hc. split.
    - intros i Hi. now apply nth_snoc_edge.
    - now apply edges_are_boundaries. }
  auto.
Qed.

(** C5 at the two contiguous bins [1,2] and [2,3]. *)
Lemma mergex_boundaries_witness :
  exists (r : loc) (w' : world),
    _mergex 0%nat 1%nat false two_bins = (Ok r, w') /\
    nth_error (heap w') r = Some [1; 2; 3] /\
    nth_error (heap w') 0%nat = Some [1; 2] /\
    nth_error (heap w') 1%nat = Some [2; 3].
Proof.
  destruct (mergex_boundaries two_bins 0%nat 1%nat [1; 2] [2; 3])
    as (r & w' & x & Hrun & Hx & _ & _ & _ & _ & _ & Hlo & Hhi & _);
    try reflexivity; simpl; try lia.
  exists r, w'. repeat split; try assumption.
  rewrite (mergex_run_false two_bins 0%nat 1%nat [1; 2] [2; 3]) in Hrun;
    try reflexivity; simpl; try lia.
  injection Hrun as <- <-. reflexivity.
Defined.

(** X3.  Without contiguity a boundary is lost, silently: for the bins
    [1,2] and [3,4], [_mergex] returns [1, 3, 4], and the upper edge 2 of
    the first bin is not in it. *)
Theorem mergex_gap_drops_boundary :
  exists (r : loc) (w' : world),
    _mergex 0%nat 1%nat false two_bins_apart = (Ok r, w') /\
    nth_error (heap w') r = Some [1; 3; 4] /\
    is_boundary [1; 3] [2; 4] 2 /\
    ~ In 2 [1; 3; 4].
Proof.
  eexists _, _. split.
  - apply (mergex_run_false two_bins_apart 0%nat 1%nat [1; 3] [2; 4]);
      try reflexivity. simpl. lia.
  - split; [reflexivity|]. split.
    + exists 0%nat. simpl. split; [lia|]. now right.
    + simpl. intros [H|[H|[H|[]]]]; lra.
Qed.

(** X4.  On empty arrays [_mergex] raises IndexError at [xhi[-1]]. *)
Theorem mergex_empty_raises :
  fst (_mergex 0%nat 1%nat false no_bins) = Raise IndexError.
Proof.
  reflexivity.
Qed.

(** ** Sorting *)

Lemma insert_perm (v : R) (l : list R) : Permutation (insert v l) (v :: l).
Proof.
  induction l as [|h t IH]; simpl; auto.
  destruct (Rle_dec v h); auto.
  rewrite IH. apply perm_swap.
Qed.

Lemma sort_perm (l : list R) : Permutation (sort l) l.
Proof.
  induction l as [|h t IH]; simpl; auto.
  rewrite insert_perm. now constructor.
Qed.

Lemma insert_sorted (v : R) (l : list R) :
  StronglySorted Rle l -> StronglySorted Rle (insert v l).
Proof.
  induction 1 as [|h t Hs IH Hall]; simpl.
  - repeat constructor.
  - destruct (Rle_dec v h) as [Hle|Hgt].
    + constructor; [now constructor|].
      constructor; auto.
      eapply Forall_impl; [|exact Hall]. intros; simpl in *; lra.
    + constructor; auto.
      eapply Permutation_Forall; [symmetry; apply insert_perm|].
      constructor; auto. lra.
Qed.

Lemma sort_sorted (l : list R) : StronglySorted Rle (sort l).
Proof.
  induction l as [|h t IH]; simpl; [constructor|now apply insert_sorted].
Qed.

(** A list has one sorted arrangement. *)
Lemma sorted_unique (l l' : list R) :
  StronglySorted Rle l -> StronglySorted Rle l' -> Permutation l l' -> l = l'.
Proof.
  intros Hl; revert l'.
  induction Hl as [|a t Hs IH Ha]; intros l' Hl' Hp.
  - now apply Permutation_nil in Hp.
  - destruct Hl' as [|b t' Hs' Hb].
    + symmetry in Hp. now apply Permutation_nil in Hp.
    + assert (E : a = b).
      { assert (Hab : a <= b).
        { assert (Hin : In b (a :: t))
            by (eapply Permutation_in; [symmetry; exact Hp|now left]).
          destruct Hin as [->|Hin]; [lra|].
          rewrite Forall_forall in Ha. auto. }
        assert (Hba : b <= a).
        { assert (Hin : In a (b :: t'))
            by (eapply Permutation_in; [exact Hp|now left]).
          destruct Hin as [->|Hin]; [lra|].
          rewrite Forall_forall in Hb. auto. }
        lra. }
      subst b. f_equal. apply IH; auto.
      now apply Permutation_cons_inv with a.
Qed.

Lemma sort_unique (l l' : list R) :
  StronglySorted Rle l' -> Permutation l l' -> sort l = l'.
Proof.
  intros Hs Hp. apply sorted_unique; auto using sort_sorted.
  now rewrite sort_perm.
Qed.

(** ** [_mergex] with midpoints *)

Lemma np_add_spec (a b : loc) (va vb : list R) (w : world) :
  nth_error (heap w) a = Some va ->
  nth_error (heap w) b = Some vb ->
  length va = length vb ->
  np_add a b w =
  (Ok (length (heap w)),
   mkWorld (heap w ++ [zip_with Rplus va vb]) (trace w)).
Proof.
  intros Ha Hb Hl. unfold np_add.
  rewrite (bind_step _ _ _ _ _ _ _ (read_spec _ _ _ Ha)).
  rewrite (bind_step _ _ _ _ _ _ _ (read_spec _ _ _ Hb)).
  unfold broadcast2. now rewrite Hl, Nat.eqb_refl.
Qed.

Lemma np_div_scalar_spec (a : loc) (c : R) (va : list R) (w : world) :
  nth_error (heap w) a = Some va ->
  np_div_scalar a c w =
  (Ok (length (heap w)),
   mkWorld (heap w ++ [map (fun v => v / c) va]) (trace w)).
Proof.
  intros Ha. unfold np_div_scalar.
  now rewrite (bind_step _ _ _ _ _ _ _ (read_spec _ _ _ Ha)).
Qed.

Lemma np_concatenate_spec (a b : loc) (va vb : list R) (w : world) :
  nth_error (heap w) a = Some va ->
  nth_error (heap w) b = Some vb ->
  np_concatenate a b w =
  (Ok (length (heap w)), mkWorld (heap w ++ [va ++ vb]) (trace w)).
Proof.
  intros Ha Hb. unfold np_concatenate.
  rewrite (bind_step _ _ _ _ _ _ _ (read_spec _ _ _ Ha)).
  now rewrite (bind_step _ _ _ _ _ _ _ (read_spec _ _ _ Hb)).
Qed.

Lemma np_sort_spec (a : loc) (va : list R) (w : world) :
  nth_error (heap w) a = Some va ->
  np_sort a w = (Ok tt, mkWorld (upd a (sort va) (heap w)) (trace w)).
Proof.
  intros Ha. unfold np_sort.
  rewrite (bind_step _ _ _ _ _ _ _ (read_spec _ _ _ Ha)).
  now apply write_spec with va.
Qed.

Lemma mergex_run_true (w : world) (lo hi : loc) (xlo xhi : list R) :
  nth_error (heap w) lo = Some xlo ->
  nth_error (heap w) hi = Some xhi ->
  length xlo = length xhi ->
  (1 <= length xhi)%nat ->
  let x := xlo ++ [last xhi 0] in
  let mid := midpoints xlo xhi in
  _mergex lo hi true w =
  (Ok (length (heap w) + 4)%nat,
   mkWorld (((((heap w ++ [x]) ++ [xlo]) ++ [zip_with Rplus xlo xhi])
               ++ [mid]) ++ [sort (x ++ mid)])
           (trace w)).
Proof.
  intros Hlo Hhi Hlen Hn x mid.
  rewrite (mergex_run true w lo hi xlo xhi) by assumption.
  fold x.
  set (w0 := mkWorld ((heap w ++ [x]) ++ [xlo]) (trace w)).
  assert (Hlo0 : nth_error (heap w0) lo = Some xlo)
    by now apply nth_error_snoc_old, nth_error_snoc_old.
  assert (Hhi0 : nth_error (heap w0) hi = Some xhi)
    by now apply nth_error_snoc_old, nth_error_snoc_old.
  rewrite (bind_step _ _ _ _ _ _ _ (np_add_spec _ _ _ _ _ Hlo0 Hhi0 Hlen)).
  set (w1 := mkWorld (heap w0 ++ [zip_with Rplus xlo xhi]) (trace w0)).
  assert (Hs : nth_error (heap w1) (length (heap w0)) =
               Some (zip_with Rplus xlo xhi)) by apply nth_error_snoc.
  rewrite (bind_step _ _ _ _ _ _ _ (np_div_scalar_spec _ 2 _ _ Hs)).
  fold (midpoints xlo xhi). fold mid.
  set (w2 := mkWorld (heap w1 ++ [mid]) (trace w1)).
  assert (Hx2 : nth_error (heap w2) (length (heap w)) = Some x).
  { simpl. do 3 apply nth_error_snoc_old. apply nth_error_snoc. }
  assert (Hm2 : nth_error (heap w2) (length (heap w1)) = Some mid)
    by apply nth_error_snoc.
  rewrite (bind_step _ _ _ _ _ _ _ (np_concatenate_spec _ _ _ _ _ Hx2 Hm2)).
  set (w3 := mkWorld (heap w2 ++ [x ++ mid]) (trace w2)).
  assert (H3 : nth_error (heap w3) (length (heap w2)) = Some (x ++ mid))
    by apply nth_error_snoc.
  rewrite (bind_step _ _ _ _ _ _ _ (np_sort_spec _ _ _ H3)).
  unfold ret. f_equal.
  - f_equal. simpl. rewrite !length_app. simpl. lia.
  - simpl. f_equal. apply upd_app_last.
Qed.

Lemma length_zip_with (f : R -> R -> R) (a b : list R) :
  length a = length b -> length (zip_with f a b) = length a.
Proof.
  revert b; induction a as [|x a IH]; intros [|y b]; simpl; intros H;
    auto; discriminate.
Qed.

Lemma length_midpoints (xlo xhi : list R) :
  length xlo = length xhi -> length (midpoints xlo xhi) = length xlo.
Proof.
  intros H. unfold midpoints. rewrite length_map. now apply length_zip_with.
Qed.

Lemma nth_midpoints (xlo xhi : list R) (i : nat) :
  length xlo = length xhi -> (i < length xlo)%nat ->
  nth i (midpoints xlo xhi) 0 = (nth i xlo 0 + nth i xhi 0) / 2.
Proof.
  unfold midpoints.
  revert xhi i; induction xlo as [|a xlo IH]; intros [|b xhi] i; simpl;
    intros Hl Hi; try lia.
  destruct i as [|i]; auto. apply IH; lia.
Qed.

Lemma interleave_perm (xlo xhi : list R) (l : R) :
  length xlo = length xhi ->
  Permutation ((xlo ++ [l]) ++ midpoints xlo xhi)
              (edges_and_mids xlo xhi ++ [l]).
Proof.
  unfold midpoints.
  revert xhi; induction xlo as [|a xlo IH]; intros [|b xhi] Hl;
    simpl in *; try discriminate; auto.
  constructor.
  rewrite <- Permutation_middle. constructor.
  apply IH. lia.
Qed.

Lemma contiguous_tail (a b : R) (xlo xhi : list R) :
  contiguous (a :: xlo) (b :: xhi) -> contiguous xlo xhi.
Proof.
  intros H n Hn. specialize (H (S n)). simpl in H.
  rewrite Nat.sub_0_r in H.
  destruct n as [|n]; [lia|].
  simpl. rewrite Nat.sub_0_r. apply H. lia.
Qed.

Lemma ordered_tail (a b : R) (xlo xhi : list R) :
  ordered (a :: xlo) (b :: xhi) -> ordered xlo xhi.
Proof.
  intros H n Hn. apply (H (S n)). simpl. lia.
Qed.

Lemma interleave_sorted (xlo xhi : list R) :
  length xlo = length xhi -> (1 <= length xlo)%nat ->
  contiguous xlo xhi -> ordered xlo xhi ->
  Sorted Rle (edges_and_mids xlo xhi ++ [last xhi 0]).
Proof.
  revert xhi; induction xlo as [|a xlo IH]; intros [|b xhi] Hl HN Hc Ho;
    simpl in Hl, HN; try lia.
  assert (Hab : a <= b) by (apply (Ho 0%nat); simpl; lia).
  destruct xlo as [|a' xlo]; destruct xhi as [|b' xhi];
    simpl in Hl; try lia.
  - simpl.
    repeat (apply Sorted_cons || apply HdRel_cons || apply Sorted_nil
            || apply HdRel_nil); lra.
  - assert (Ea : a' = b) by (apply (Hc 1%nat); simpl; lia).
    assert (IH' := IH (b' :: xhi) ltac:(simpl; lia) ltac:(simpl; lia)
                      (contiguous_tail _ _ _ _ Hc) (ordered_tail _ _ _ _ Ho)).
    change (last (b :: b' :: xhi) 0) with (last (b' :: xhi) 0).
    simpl in IH' |- *.
    apply Sorted_cons; [apply Sorted_cons; [exact IH'|]|];
      apply HdRel_cons; lra.
Qed.

Lemma Rle_transitive : Relations_1.Transitive Rle.
Proof.
  intros x y z. apply Rle_trans.
Qed.

(** C10.  For arrays [xlo], [xhi] of equal size [N >= 1] with contiguous,
    ordered bins, [_mergex(xlo, xhi, midpoints=True)] returns a new array of
    length [2N+1], sorted in nondecreasing order, that holds exactly the
    [N+1] bin boundaries and the [N] midpoints [(xlo[n]+xhi[n])/2]: it is
    the lower edge and the midpoint of each bin in turn, then the last upper
    edge.  The input arrays are unchanged. *)
Theorem mergex_midpoints (w : world) (lo hi : loc) (xlo xhi : list R) :
  nth_error (heap w) lo = Some xlo ->
  nth_error (heap w) hi = Some xhi ->
  length xlo = length xhi ->
  (1 <= length xlo)%nat ->
  contiguous xlo xhi ->
  ordered xlo xhi ->
  exists (r : loc) (w' : world) (x : list R),
    _mergex lo hi true w = (Ok r, w') /\
    nth_error (heap w') r = Some x /\
    length x = (2 * length xlo + 1)%nat /\
    StronglySorted Rle x /\
    Permutation x
      ((xlo ++ [nth (length xlo - 1) xhi 0]) ++ midpoints xlo xhi) /\
    (forall v, In v (xlo ++ [nth (length xlo - 1) xhi 0]) <->
               is_boundary xlo xhi v) /\
    length (midpoints xlo xhi) = length xlo /\
    (forall i, (i < length xlo)%nat ->
       nth i (midpoints xlo xhi) 0 = (nth i xlo 0 + nth i xhi 0) / 2) /\
    x = edges_and_mids xlo xhi ++ [nth (length xlo - 1) xhi 0] /\
    nth_error (heap w') lo = Some xlo /\
    nth_error (heap w') hi = Some xhi.
Proof.
  intros Hlo Hhi Hlen HN Hc Ho.
  assert (El : nth (length xlo - 1) xhi 0 = last xhi 0)
    by (rewrite Hlen; apply nth_last).
  rewrite El.
  assert (Hsorted : StronglySorted Rle (edges_and_mids xlo xhi ++ [last xhi 0]))
    by (apply Sorted_StronglySorted;
        [apply Rle_transitive|now apply interleave_sorted]).
  assert (Hperm := interleave_perm xlo xhi (last xhi 0) Hlen).
  assert (Hsort := sort_unique _ _ Hsorted Hperm).
  eexists _, _, _.
  split; [apply (mergex_run_true w lo hi xlo xhi); auto; lia|]. simpl heap.
  split.
  { rewrite nth_error_app2 by (rewrite !length_app; simpl; lia).
    rewrite !length_app. simpl length.
    replace (length (heap w) + 4 - (length (heap w) + 1 + 1 + 1 + 1))%nat
      with 0%nat by lia.
    reflexivity. }
  rewrite Hsort.
  split.
  { rewrite <- (Permutation_length Hperm), !length_app, length_midpoints by auto.
    simpl. lia. }
  split; [assumption|].
  split; [now symmetry|].
  split; [now apply edges_are_boundaries|].
  split; [now apply length_midpoints|].
  split; [intros; now apply nth_midpoints|].
  split; [reflexivity|].
  split; now do 5 apply nth_error_snoc_old.
Qed.

(** C10 at the bins [1,2] and [2,4]. *)
Lemma mergex_midpoints_witness :
  exists (r : loc) (w' : world) (x : list R),
    _mergex 0%nat 1%nat true two_uneven_bins = (Ok r, w') /\
    nth_error (heap w') r = Some x /\
    x = [1; (1 + 2) / 2; 2; (2 + 4) / 2; 4].
Proof.
  destruct (mergex_midpoints two_uneven_bins 0%nat 1%nat [1; 2] [2; 4])
    as (r & w' & x & Hrun & Hx & _ & _ & _ & _ & _ & _ & E & _);
    try reflexivity; simpl; try lia.
  - intros n Hn. simpl in Hn. assert (n = 1%nat) as -> by lia. reflexivity.
  - intros [|[|n]] Hn; simpl in *; try lra; lia.
  - exists r, w', x. auto.
Defined.

(** ** The log of library calls *)

Lemma bind_assoc A B C (m : M A) (k : A -> M B) (k' : B -> M C) :
  same (bind (bind m k) k') (bind m (fun a => bind (k a) k')).
Proof.
  intros w. unfold bind. destruct (m w) as [[a|e] w1]; reflexivity.
Qed.

Lemma bind_ret_l A B (a : A) (k : A -> M B) : same (bind (ret a) k) (k a).
Proof.
  intros w. reflexivity.
Qed.

Create HintDb quiet.

Lemma quiet_ret A (a : A) : quiet (ret a).
Proof. intros w. reflexivity. Qed.

Lemma quiet_raise A (e : exn) : quiet (@raise A e).
Proof. intros w. reflexivity. Qed.

Lemma quiet_bind A B (m : M A) (k : A -> M B) :
  quiet m -> (forall a, quiet (k a)) -> quiet (bind m k).
Proof.
  intros Hm Hk w. unfold bind. specialize (Hm w).
  destruct (m w) as [[a|e] w1]; simpl in *; auto.
  now rewrite Hk.
Qed.

Lemma quiet_read (l : loc) : quiet (read l).
Proof.
  intros w. unfold read. now destruct (nth_error (heap w) l).
Qed.

Lemma quiet_alloc (a : list R) : quiet (alloc a).
Proof. intros w. reflexivity. Qed.

Lemma quiet_write (l : loc) (a : list R) : quiet (write l a).
Proof.
  intros w. unfold write. now destruct (nth_error (heap w) l).
Qed.

#[export] Hint Resolve quiet_ret quiet_raise quiet_read quiet_alloc
  quiet_write : quiet.

Ltac quiet_tac :=
  cbv zeta;
  repeat first
    [ solve [auto with quiet]
    | match goal with
      | |- quiet (bind _ _) => apply quiet_bind; [|intros ?]
      | |- quiet (if ?c then _ else _) => destruct c
      | |- quiet (match ?x with _ => _ end) => destruct x
      end ].

Lemma quiet_np_size (a : loc) : quiet (np_size a).
Proof. unfold np_size. quiet_tac. Qed.

Lemma quiet_np_zeros (n : nat) : quiet (np_zeros n).
Proof. unfold np_zeros. quiet_tac. Qed.

Lemma quiet_np_copy (a : loc) : quiet (np_copy a).
Proof. unfold np_copy. quiet_tac. Qed.

Lemma quiet_np_setslice_upto (x : loc) (n : nat) (src : loc) :
  quiet (np_setslice_upto x n src).
Proof. unfold np_setslice_upto. quiet_tac. Qed.

Lemma quiet_np_getitem (a : loc) (i : Z) : quiet (np_getitem a i).
Proof. unfold np_getitem. quiet_tac. Qed.

Lemma quiet_np_setitem (a : loc) (i : Z) (r : R) : quiet (np_setitem a i r).
Proof. unfold np_setitem. quiet_tac. Qed.

Lemma quiet_np_add (a b : loc) : quiet (np_add a b).
Proof. unfold np_add. quiet_tac. Qed.

Lemma quiet_np_div_scalar (a : loc) (c : R) : quiet (np_div_scalar a c).
Proof. unfold np_div_scalar. quiet_tac. Qed.

Lemma quiet_np_concatenate (a b : loc) : quiet (np_concatenate a b).
Proof. unfold np_concatenate. quiet_tac. Qed.

Lemma quiet_np_sort (a : loc) : quiet (np_sort a).
Proof. unfold np_sort. quiet_tac. Qed.

#[export] Hint Resolve quiet_np_size quiet_np_zeros quiet_np_copy
  quiet_np_setslice_upto quiet_np_getitem quiet_np_setitem quiet_np_add
  quiet_np_div_scalar quiet_np_concatenate quiet_np_sort : quiet.

Lemma quiet_mergex (xlo xhi : loc) (midpoints : bool) :
  quiet (_mergex xlo xhi midpoints).
Proof. unfold _mergex. quiet_tac. Qed.

Lemma quiet_qmul (a b : QArr) : quiet (qmul a b).
Proof. unfold qmul. quiet_tac. Qed.

Lemma quiet_bin_photons (outspec model : QArr) :
  quiet (bin_photons outspec model).
Proof. unfold bin_photons. apply quiet_qmul. Qed.

Lemma quiet_getitem (l : list R) (i : nat) : quiet (getitem l i).
Proof. unfold getitem. quiet_tac. Qed.

Lemma quiet_table_getitem (t : Table) (key : string) :
  quiet (table_getitem t key).
Proof. unfold table_getitem. quiet_tac. Qed.

Lemma quiet_unpack (p : list R) : quiet (unpack p).
Proof.
  unfold unpack.
  do 11 (destruct p as [|? p]; [auto with quiet|]). auto with quiet.
Qed.

Lemma quiet_load_name (locals : list (string * loc)) (name : string) :
  quiet (load_name locals name).
Proof. unfold load_name. quiet_tac. Qed.

#[export] Hint Resolve quiet_mergex quiet_qmul quiet_bin_photons
  quiet_getitem quiet_table_getitem quiet_unpack quiet_load_name : quiet.

Lemma logs_calls_of A (P : event -> Prop) (R : A -> Prop) (m : M A) :
  logs P R m ->
  forall w,
    trace (snd (m w)) = trace w ++ calls_of m w /\
    Forall P (calls_of m w) /\
    (forall a, fst (m w) = Ok a -> R a) /\
    (forall c e, In (c, Raise e) (calls_of m w) -> fst (m w) = Raise e).
Proof.
  intros H w. destruct (H w) as (evs & Ht & HP & HR & HE).
  assert (E : calls_of m w = evs).
  { unfold calls_of. rewrite Ht, skipn_app, skipn_all, Nat.sub_diag.
    reflexivity. }
  rewrite E. auto.
Qed.

Lemma logs_ext A (P : event -> Prop) (R : A -> Prop) (m m' : M A) :
  same m' m -> logs P R m -> logs P R m'.
Proof.
  intros E H w. rewrite E. apply H.
Qed.

Lemma logs_post A (P : event -> Prop) (R R' : A -> Prop) (m : M A) :
  logs P R m -> (forall a, R a -> R' a) -> logs P R' m.
Proof.
  intros H HR w. destruct (H w) as (evs & Ht & HP & Hr & HE).
  exists evs. split; [|split; [|split]]; auto.
Qed.

Lemma logs_quiet A (P : event -> Prop) (m : M A) :
  quiet m -> logs P (fun _ => True) m.
Proof.
  intros H w. exists []. rewrite app_nil_r. repeat split; auto.
  intros c e [].
Qed.

Lemma logs_ret A (P : event -> Prop) (a : A) : logs P (eq a) (ret a).
Proof.
  intros w. exists []. rewrite app_nil_r. simpl. repeat split; auto.
  - intros a' E. now injection E.
  - intros c e [].
Qed.

Lemma logs_raise A (P : event -> Prop) (e : exn) :
  logs P (fun _ : A => False) (raise e).
Proof.
  intros w. exists []. rewrite app_nil_r. simpl. repeat split; auto.
  - intros a' E. discriminate.
  - intros c e' [].
Qed.

Lemma logs_extern T (P : event -> Prop) (c : call) (inj : T -> value)
    (answer : list event -> result T) :
  (forall tr, P (c, map_result inj (answer tr))) ->
  logs P (fun a => exists tr, answer tr = Ok a) (extern c inj answer).
Proof.
  intros HP w. exists [(c, map_result inj (answer (trace w)))].
  simpl. repeat split; auto.
  - intros a E. now exists (trace w).
  - intros c' e [E|[]]. injection E as _ E.
    destruct (answer (trace w)); simpl in E; congruence.
Qed.

Lemma logs_bind A B (P : event -> Prop) (R1 : A -> Prop) (R2 : B -> Prop)
    (m : M A) (k : A -> M B) :
  logs P R1 m -> (forall a, R1 a -> logs P R2 (k a)) ->
  logs P R2 (bind m k).
Proof.
  intros Hm Hk w. destruct (Hm w) as (evs1 & Ht1 & HP1 & HR1 & HE1).
  unfold bind. destruct (m w) as [[a|e] w1]; simpl in *.
  - destruct (Hk a (HR1 a eq_refl) w1) as (evs2 & Ht2 & HP2 & HR2 & HE2).
    exists (evs1 ++ evs2). rewrite Ht2, Ht1, app_assoc.
    split; [reflexivity|]. split; [now apply Forall_app|].
    split; [exact HR2|].
    intros c e Hin. apply in_app_or in Hin. destruct Hin as [Hin|Hin].
    + specialize (HE1 c e Hin). discriminate.
    + now apply HE2 with c.
  - exists evs1. split; [assumption|]. split; [assumption|].
    split; [intros a E; discriminate|].
    intros c e' Hin. specialize (HE1 c e' Hin). congruence.
Qed.

(** Walking through a program: nested sequences are flattened, branches
    are split, and each remaining step is a library call that [check] must
    accept or a computation that makes none. *)
Ltac logs_atom check :=
  first
    [ apply logs_ret
    | apply logs_raise
    | apply logs_extern; intros ?; simpl; check
    | apply logs_quiet; solve [quiet_tac] ].

Ltac logs_step check :=
  cbv beta iota zeta;
  lazymatch goal with
  | |- logs _ _ (bind (bind _ _) _) =>
      eapply logs_ext; [apply bind_assoc|]
  | |- logs _ _ (bind (ret _) _) =>
      eapply logs_ext; [apply bind_ret_l|]; cbv beta
  | |- logs _ _ (bind (if ?c then _ else _) _) => destruct c
  | |- logs _ _ (bind (match ?x with _ => _ end) _) => destruct x
  | |- logs _ _ (bind _ _) =>
      eapply logs_bind;
      [ logs_atom check
      | let a := fresh "a" in
        let Ha := fresh "Ha" in
        intros a Ha; cbv beta in Ha;
        lazymatch type of Ha with
        | False => destruct Ha
        | ex _ => destruct Ha as [? Ha]
        | _ => clear Ha
        end ]
  | |- logs _ _ (if ?c then _ else _) => destruct c
  | |- logs _ _ (match ?x with _ => _ end) => destruct x
  | |- logs _ _ _ =>
      eapply logs_post; [logs_atom check|auto]
  end.

Ltac logs_tac check := repeat (logs_step check).

Ltac unfold_programs :=
  unfold calc, ElectronIC, to_arr, to_quantity, to_factor, u_attr, PowerLaw,
    ExponentialCutoffPowerLaw, InverseCompton, set_We, flux, call_pdist,
    trapz_loglog, thawedpars, print_item, unpack.

Ltac unfold_programs_in H :=
  unfold calc, ElectronIC, to_arr, to_quantity, to_factor, u_attr, PowerLaw,
    ExponentialCutoffPowerLaw, InverseCompton, set_We, flux, call_pdist,
    trapz_loglog, thawedpars, print_item, unpack in H;
  cbv zeta in H.

(** ** Every call to a library is logged *)

Lemma calc_logs (lib : library) (self : obj) (p : list R) (x : loc)
    (xhi : option loc) :
  logs (fun _ => True) (fun _ => True) (calc lib self p x xhi).
Proof.
  unfold_programs. logs_tac ltac:(exact I).
Qed.

Lemma ElectronIC_logs (lib : library) (pars : list R) (data : Table) :
  logs (fun _ => True) (fun _ => True) (ElectronIC lib pars data).
Proof.
  unfold_programs. logs_tac ltac:(exact I).
Qed.

(** Deciding the comparisons of a concrete run. *)
Ltac decide_reals :=
  repeat match goal with
    | |- context [Req_dec_T ?a ?b] => destruct (Req_dec_T a b); try lra
    | |- context [Rgt_dec ?a ?b] => destruct (Rgt_dec a b); try lra
    | |- context [Rle_dec ?a ?b] => destruct (Rle_dec a b); try lra
    end.

(** ** Reading a successful run backwards *)

Lemma ret_Ok_inv A (a b : A) (w w' : world) :
  ret a w = (Ok b, w') -> a = b /\ w' = w.
Proof.
  unfold ret. intros H. injection H as -> ->. auto.
Qed.

Lemma extern_Ok_inv T (c : call) (inj : T -> value)
    (answer : list event -> result T) (h : list (list R)) (tr : list event)
    (w' : world) (a : T) :
  extern c inj answer (mkWorld h tr) = (Ok a, w') ->
  answer tr = Ok a /\ w' = mkWorld h (tr ++ [(c, Ok (inj a))]).
Proof.
  unfold extern. simpl. intros H. injection H as E <-. rewrite E. auto.
Qed.

Lemma read_Ok_inv (l : loc) (a : list R) (h : list (list R))
    (tr : list event) (w' : world) :
  read l (mkWorld h tr) = (Ok a, w') ->
  nth_error h l = Some a /\ w' = mkWorld h tr.
Proof.
  unfold read. simpl. destruct (nth_error h l); intros H.
  - injection H as -> <-. auto.
  - discriminate.
Qed.

Lemma qmul_Ok_inv (a b r : QArr) (w w' : world) :
  qmul a b w = (Ok r, w') ->
  broadcast2 Rmult (qv a) (qv b) = Ok (qv r) /\
  qu r = UMul (qu a) (qu b) /\ w' = w.
Proof.
  unfold qmul. destruct (broadcast2 Rmult (qv a) (qv b)); intros H.
  - apply ret_Ok_inv in H. destruct H as [<- ->]. auto.
  - discriminate.
Qed.

Lemma getitem_Ok_inv (l : list R) (i : nat) (v : R) (w w' : world) :
  getitem l i w = (Ok v, w') -> nth_error l i = Some v /\ w' = w.
Proof.
  unfold getitem. destruct (nth_error l i); intros H.
  - apply ret_Ok_inv in H. destruct H as [<- ->]. auto.
  - discriminate.
Qed.

Lemma table_getitem_Ok_inv (t : Table) (key : string) (c : QArr)
    (w w' : world) :
  table_getitem t key w = (Ok c, w') ->
  (exists k, find (fun c => String.eqb (fst c) key) t = Some (k, c)) /\
  w' = w.
Proof.
  unfold table_getitem.
  destruct (find (fun c => String.eqb (fst c) key) t) as [[k c']|];
    intros H.
  - apply ret_Ok_inv in H. destruct H as [<- ->]. eauto.
  - discriminate.
Qed.

Ltac inv_run :=
  repeat match goal with
    | H : bind _ _ _ = (Ok _, _) |- _ =>
        apply bind_Ok_inv in H; destruct H as (? & ? & ? & H)
    | H : ret _ _ = (Ok _, _) |- _ =>
        apply ret_Ok_inv in H; destruct H as [? ?]; subst
    | H : raise _ _ = (Ok _, _) |- _ => discriminate H
    | H : (_, _) = (_, _) |- _ => injection H as ? ?; subst
    | H : extern _ _ _ (mkWorld _ _) = (Ok _, _) |- _ =>
        apply extern_Ok_inv in H; destruct H as [? ?]; subst
    | H : read _ (mkWorld _ _) = (Ok _, _) |- _ =>
        apply read_Ok_inv in H; destruct H as [? ?]; subst
    | H : qmul _ _ _ = (Ok _, _) |- _ =>
        apply qmul_Ok_inv in H; destruct H as (? & ? & ?); subst
    | H : getitem _ _ _ = (Ok _, _) |- _ =>
        apply getitem_Ok_inv in H; destruct H as [? ?]; subst
    | H : table_getitem _ _ _ = (Ok _, _) |- _ =>
        apply table_getitem_Ok_inv in H; destruct H as [[? ?] ?]; subst
    | H : (if ?c then _ else _) _ = (Ok _, _) |- _ => destruct c
    | H : (match ?x with _ => _ end) _ = (Ok _, _) |- _ => destruct x
    end.

(** ** C1 and C2: [calc] on binned data *)

(** C2.  With ten parameters and an array of upper edges, [calc] raises
    NameError for the name [xlo] (line 68 reads [xlo], the parameter is
    called [x]): nothing is merged, no library is called, and the heap and
    the log are as before the call. *)
Theorem calc_binned_raises_NameError (lib : library) (self : obj)
    (i r a c b tf uf tn un v : R) (x hi : loc) (w : world) :
  calc lib self [i; r; a; c; b; tf; uf; tn; un; v] x (Some hi) w =
  (Raise (NameError "xlo"), w).
Proof.
  reflexivity.
Qed.

(** C1.  No run of [calc] integrates over bins.  Whatever the parameters,
    the arrays and the libraries, a call with an array of upper edges
    returns no photon counts: it stops at line 68, before the flux is
    evaluated, so no library is called (neither [flux] nor
    [trapz_loglog]) and no array is written. *)
Theorem calc_binned_integrates_nothing (lib : library) (self : obj)
    (p : list R) (x hi : loc) (w : world) :
  (forall r, fst (calc lib self p x (Some hi) w) <> Ok r) /\
  calls_of (calc lib self p x (Some hi)) w = [] /\
  heap (snd (calc lib self p x (Some hi) w)) = heap w.
Proof.
  unfold calls_of, calc.
  do 11 (destruct p as [|? p];
         [simpl; rewrite skipn_all; repeat split; discriminate|]).
  simpl; rewrite skipn_all; repeat split; discriminate.
Qed.

(** ** [calc] on unbinned data *)

Lemma skipn_app_exact A (l l' : list A) : skipn (length l) (l ++ l') = l'.
Proof.
  now rewrite skipn_app, skipn_all, Nat.sub_diag.
Qed.

Lemma calls_of_run A (m : M A) (w w' : world) (r : result A)
    (evs : list event) :
  m w = (r, w') -> trace w' = trace w ++ evs -> calls_of m w = evs.
Proof.
  intros H E. unfold calls_of. rewrite H. simpl. rewrite E.
  apply skipn_app_exact.
Qed.

Lemma broadcast2_same_length (f : R -> R -> R) (a b v : list R) :
  broadcast2 f a b = Ok v -> length a = length b -> v = zip_with f a b.
Proof.
  unfold broadcast2. intros H E. rewrite E, Nat.eqb_refl in H.
  now injection H.
Qed.

Lemma nth_zip_with (f : R -> R -> R) (a b : list R) (i : nat) :
  length a = length b -> (i < length a)%nat ->
  nth i (zip_with f a b) 0 = f (nth i a 0) (nth i b 0).
Proof.
  revert b i; induction a as [|x a IH]; intros [|y b] i; simpl;
    intros Hl Hi; try lia.
  destruct i as [|i]; auto. apply IH; lia.
Qed.

Lemma nth_map_R (f : R -> R) (l : list R) (i : nat) :
  (i < length l)%nat -> nth i (map f l) 0 = f (nth i l 0).
Proof.
  intros Hi. rewrite (nth_indep _ 0 (f 0)) by now rewrite length_map.
  apply map_nth.
Qed.

(** Turning the log of a finished run into a list of events. *)
Ltac log_of Hrun :=
  erewrite calls_of_run;
  [ | exact Hrun | simpl; rewrite <- ?app_assoc; simpl; reflexivity ].

(** Membership of an event in an explicit log. *)
Ltac in_log := simpl; repeat (first [left; reflexivity | right]).

(** X1 (C9, unbinned data).  When no upper edges are given and [calc]
    returns, the result has one entry for each energy of [x], and entry [i]
    is [x[i]] times the flux the model answered for [x] at index [i], with
    the two conversion factors ([1/(s cm2 keV)] for the flux, [1/(s cm2)]
    for the product). *)
Theorem calc_points_photons (lib : library) (self : obj) (p : list R)
    (x : loc) (w w' : world) (r : list R) :
  flux_one_per_energy lib ->
  calc lib self p x None w = (Ok r, w') ->
  exists (xv : list R) (keV : Unit) (ic : obj) (F : QArr) (k1 k2 : R),
    nth_error (heap w) x = Some xv /\
    units_attr lib "keV" = Ok keV /\
    In (C_flux ic (EArr (mkQA xv keV)) None, Ok (VQArr F))
       (calls_of (calc lib self p x None) w) /\
    units_factor lib (qu F) (UStr "1/(s cm2 keV)") = Ok k1 /\
    units_factor lib (UMul keV (UStr "1/(s cm2 keV)")) (UStr "1/(s cm2)")
      = Ok k2 /\
    length r = length xv /\
    forall i, (i < length xv)%nat ->
      nth i r 0 = k2 * (nth i xv 0 * (k1 * nth i (qv F) 0)).
Proof.
  intros Hflux Hrun. destruct w as [h tr]. pose proof Hrun as H.
  unfold_programs_in H. inv_run.
  all: simpl in *.
  all: match goal with
       | Hf : ic_flux _ _ ?ic (EArr (mkQA ?xv ?keV)) None = Ok ?F,
         H1 : units_factor _ (qu ?F) (UStr "1/(s cm2 keV)") = Ok ?k1,
         Hu : qu ?ym = UMul _ _,
         H2 : units_factor _ (qu ?ym) (UStr "1/(s cm2)") = Ok ?k2,
         Hb : broadcast2 _ _ _ = Ok _ |- _ =>
           pose proof (Hflux _ _ _ _ _ Hf) as Hlen; simpl in Hlen;
           rewrite Hu in H2;
           apply broadcast2_same_length in Hb;
             [|now rewrite length_map];
           rewrite Hb;
           exists xv, keV, ic, F, k1, k2
       end.
  all: split; [assumption|]; split; [assumption|].
  all: split; [log_of Hrun; in_log|].
  all: split; [assumption|]; split; [assumption|].
  all: split;
    [ rewrite length_map, length_zip_with; rewrite ?length_map; auto |].
  all: intros j Hj; rewrite nth_map_R
         by (rewrite length_zip_with; rewrite ?length_map; auto; lia);
       rewrite nth_zip_with by (rewrite ?length_map; auto; lia);
       rewrite nth_map_R by lia; reflexivity.
Qed.

(** C9.  For every call of [calc] that returns, with a [flux] that answers
    one value for each energy.  Without upper edges the result has the
    length of [x], and entry [i] is [x[i]] times the flux answered for
    [x[i]], with the two conversion factors.  With upper edges of size [N]
    the result has length [N]; no such call returns (C2), so this half
    holds of no run. *)
Theorem calc_successful_call (lib : library) (self : obj) (p : list R)
    (x : loc) (xhi : option loc) (w w' : world) (r : list R) :
  flux_one_per_energy lib ->
  calc lib self p x xhi w = (Ok r, w') ->
  match xhi with
  | None =>
      exists (xv : list R) (keV : Unit) (ic : obj) (F : QArr) (k1 k2 : R),
        nth_error (heap w) x = Some xv /\
        units_attr lib "keV" = Ok keV /\
        In (C_flux ic (EArr (mkQA xv keV)) None, Ok (VQArr F))
           (calls_of (calc lib self p x None) w) /\
        units_factor lib (qu F) (UStr "1/(s cm2 keV)") = Ok k1 /\
        units_factor lib (UMul keV (UStr "1/(s cm2 keV)")) (UStr "1/(s cm2)")
          = Ok k2 /\
        length r = length xv /\
        forall i, (i < length xv)%nat ->
          nth i r 0 = k2 * (nth i xv 0 * (k1 * nth i (qv F) 0))
  | Some hi =>
      forall xlo_v xhi_v : list R,
        nth_error (heap w) x = Some xlo_v ->
        nth_error (heap w) hi = Some xhi_v ->
        length xlo_v = length xhi_v ->
        length r = length xhi_v
  end.
Proof.
  intros Hflux Hrun. destruct xhi as [hi|].
  { exfalso. revert Hrun. unfold calc.
    do 11 (destruct p as [|? p]; [discriminate|]). discriminate. }
  destruct w as [h tr]. pose proof Hrun as H.
  unfold_programs_in H. inv_run.
  all: simpl in *.
  all: match goal with
       | Hf : ic_flux _ _ ?ic (EArr (mkQA ?xv ?keV)) None = Ok ?F,
         H1 : units_factor _ (qu ?F) (UStr "1/(s cm2 keV)") = Ok ?k1,
         Hu : qu ?ym = UMul _ _,
         H2 : units_factor _ (qu ?ym) (UStr "1/(s cm2)") = Ok ?k2,
         Hb : broadcast2 _ _ _ = Ok _ |- _ =>
           pose proof (Hflux _ _ _ _ _ Hf) as Hlen; simpl in Hlen;
           rewrite Hu in H2;
           apply broadcast2_same_length in Hb;
             [|now rewrite length_map];
           rewrite Hb;
           exists xv, keV, ic, F, k1, k2
       end.
  all: split; [assumption|]; split; [assumption|].
  all: split; [log_of Hrun; in_log|].
  all: split; [assumption|]; split; [assumption|].
  all: split;
    [ rewrite length_map, length_zip_with; rewrite ?length_map; auto |].
  all: intros j Hj; rewrite nth_map_R
         by (rewrite length_zip_with; rewrite ?length_map; auto; lia);
       rewrite nth_zip_with by (rewrite ?length_map; auto; lia);
       rewrite nth_map_R by lia; reflexivity.
Qed.

(** ** C3: which particle distribution [calc] builds *)

(** Two lookups of one name in the units module give one unit. *)
Ltac same_units :=
  repeat match goal with
    | H1 : units_attr ?l ?n = Ok ?a, H2 : units_attr ?l ?n = Ok ?b |- _ =>
        tryif constr_eq a b then fail
        else (assert (b = a) by congruence; subst b)
    end.

Lemma calc_pdist_logs (lib : library) (self : obj) (ps : Pars) (x : loc)
    (xhi : option loc) :
  logs (pdist_as_claimed lib ps) (fun _ => True)
       (calc lib self (pars_list ps) x xhi).
Proof.
  unfold pars_list. unfold_programs.
  logs_tac ltac:(
    unfold pdist_as_claimed, claimed_pdist_call; simpl in *; intros Hc;
    first
      [ discriminate Hc
      | same_units; eexists; split; [eassumption|];
        first [ left; split; [assumption|reflexivity]
              | right; split; [assumption|reflexivity] ] ]).
Qed.

(** Going through every run of a program that also compares floats. *)
Ltac run_all_cases :=
  repeat (cbv beta iota zeta
            delta [bind extern read ret raise map_result heap trace qmul
                   getitem table_getitem];
          cbn [app nth_error qv qu qval qunit
               index ref ampl cutoff beta TFIR uFIR TNIR uNIR verbose];
          match goal with
          | |- context [match ?a with Ok _ => _ | Raise _ => _ end] =>
              lazymatch a with
              | context [match _ with _ => _ end] => fail
              | _ => destruct a eqn:?
              end
          | |- context [Req_dec_T ?a ?b] => destruct (Req_dec_T a b)
          | |- context [Rgt_dec ?a ?b] => destruct (Rgt_dec a b)
          end).

(** Whether or not [calc] goes on to return: once the units [keV] and
    [TeV] are found and [x] is an array, the constructor call for the
    parameters is made. *)
Lemma calc_pdist_is_constructed (lib : library) (self : obj) (ps : Pars)
    (x : loc) (w : world) (keV TeV : Unit) (xv : list R) :
  units_attr lib "keV" = Ok keV ->
  units_attr lib "TeV" = Ok TeV ->
  nth_error (heap w) x = Some xv ->
  exists c : call,
    claimed_pdist_call ps TeV c /\
    exists ans : result value,
      In (c, ans) (calls_of (calc lib self (pars_list ps) x None) w).
Proof.
  intros Hk HT Hx. destruct w as [h tr]. simpl in Hx.
  destruct ps as [i r0 a c b tf uf tn un v].
  unfold claimed_pdist_call, calls_of, pars_list. unfold_programs.
  cbv beta iota zeta
    delta [bind extern read ret raise map_result heap trace
           index ref ampl cutoff beta TFIR uFIR TNIR uNIR verbose].
  rewrite Hk, Hx, HT. cbv beta iota.
  destruct (Req_dec_T c 0) as [E|E];
    (eexists; split;
     [first [left; split; [exact E|reflexivity]
            |right; split; [exact E|reflexivity]]|]).
  all: run_all_cases.
  all: simpl; rewrite <- ?app_assoc; rewrite skipn_app_exact; simpl.
  all: eexists; in_log.
Qed.

(** C3.  In every run of [calc], a particle distribution is constructed
    only as the claim says: a [PowerLaw] call occurs only if the cutoff
    parameter is exactly 0, with amplitude [ampl] in 1/eV, reference energy
    [ref] in TeV and the index; an [ExponentialCutoffPowerLaw] call occurs
    only if the cutoff is not 0, with the cutoff in TeV and [beta] besides.
    On unbinned data that call is made as soon as the units [keV] and
    [TeV] are found and [x] is an array, whatever happens afterwards.  When
    [calc] returns, the object the call answered is the one handed to the
    scattering model. *)
Theorem calc_particle_distribution (lib : library) (self : obj) (ps : Pars)
    (x : loc) (xhi : option loc) (w : world) :
  Forall (pdist_as_claimed lib ps)
         (calls_of (calc lib self (pars_list ps) x xhi) w) /\
  (forall keV TeV xv,
     xhi = None ->
     units_attr lib "keV" = Ok keV ->
     units_attr lib "TeV" = Ok TeV ->
     nth_error (heap w) x = Some xv ->
     exists c : call,
       claimed_pdist_call ps TeV c /\
       exists ans : result value,
         In (c, ans) (calls_of (calc lib self (pars_list ps) x xhi) w)) /\
  (forall r, fst (calc lib self (pars_list ps) x xhi w) = Ok r ->
     exists (TeV : Unit) (c : call) (pd ic : obj) (seeds : list seed),
       units_attr lib "TeV" = Ok TeV /\
       claimed_pdist_call ps TeV c /\
       In (c, Ok (VObj pd))
          (calls_of (calc lib self (pars_list ps) x xhi) w) /\
       In (C_InverseCompton pd seeds (Some 5%Z) (Some 10%Z) (Some 100%Z),
           Ok (VObj ic))
          (calls_of (calc lib self (pars_list ps) x xhi) w)).
Proof.
  split.
  - apply (logs_calls_of _ _ _ _ (calc_pdist_logs lib self ps x xhi) w).
  - split.
    { intros keV TeV xv -> Hk HT Hx.
      now apply calc_pdist_is_constructed with keV xv. }
    intros r Hr.
    destruct (calc lib self (pars_list ps) x xhi w) as [r' w'] eqn:Hrun.
    simpl in Hr. subst r'. destruct w as [h tr].
    destruct xhi as [hi|]; [discriminate Hrun|].
    pose proof Hrun as H. unfold pars_list in H.
    unfold_programs_in H. inv_run.
    all: simpl in *; same_units.
    all: match goal with
         | Hu : units_attr _ "TeV" = Ok ?t,
           Hp : new_PowerLaw _ _ ?a ?e ?al = Ok ?pd,
           Hi : new_InverseCompton _ _ ?pd ?sd _ _ _ = Ok ?ic |- _ =>
             exists t, (C_PowerLaw a e al), pd, ic, sd
         | Hu : units_attr _ "TeV" = Ok ?t,
           Hp : new_ExponentialCutoffPowerLaw _ _ ?a ?e ?al ?ec ?b = Ok ?pd,
           Hi : new_InverseCompton _ _ ?pd ?sd _ _ _ = Ok ?ic |- _ =>
             exists t, (C_ExponentialCutoffPowerLaw a e al ec b), pd, ic, sd
         end.
    all: split; [assumption|].
    all: split;
      [ first [ left; split; [assumption|reflexivity]
              | right; split; [assumption|reflexivity] ] |].
    all: split; (log_of Hrun; in_log).
Qed.

(** ** C4: the seed photon fields *)

Ltac logs_tac_or check absurd :=
  repeat first [ solve [exfalso; absurd] | logs_step check ].

(** C4, where it fails.  Lines 79 and 81 take the energy unit from the
    units module under the name [ev].  If the module binds no such name
    (astropy.units binds [eV]), then for every parameter vector with
    [uFIR > 0] or [uNIR > 0] the call raises instead of returning, and no
    scattering model is constructed at all: the FIR or NIR field is never
    handed to it. *)
Theorem calc_extra_seed_field_fails (lib : library) (self : obj) (ps : Pars)
    (x : loc) (xhi : option loc) (w : world) :
  (forall u, units_attr lib "ev" <> Ok u) ->
  uFIR ps > 0 \/ uNIR ps > 0 ->
  (forall r, fst (calc lib self (pars_list ps) x xhi w) <> Ok r) /\
  Forall (fun ev => is_ic_ctor (fst ev) = false)
         (calls_of (calc lib self (pars_list ps) x xhi) w).
Proof.
  intros Hev Hor.
  assert (L : logs (fun ev => is_ic_ctor (fst ev) = false)
                   (fun _ : list R => False)
                   (calc lib self (pars_list ps) x xhi)).
  { unfold pars_list. unfold_programs.
    logs_tac_or ltac:(reflexivity)
      ltac:(simpl in *;
            first [ match goal with
                    | H : units_attr _ "ev" = Ok _ |- _ => exact (Hev _ H)
                    end
                  | tauto ]). }
  destruct (logs_calls_of _ _ _ _ L w) as (_ & HP & HR & _).
  split; [|exact HP]. intros r Hr. exact (HR r Hr).
Qed.

(** C4 at [uFIR = 0.2], on a units module that binds [eV] and not [ev]. *)
Lemma calc_extra_seed_field_fails_witness :
  (forall r, fst (calc demo_lib 0%nat (pars_list pars_with_FIR) 0%nat None
                    two_points) <> Ok r) /\
  Forall (fun ev => is_ic_ctor (fst ev) = false)
         (calls_of (calc demo_lib 0%nat (pars_list pars_with_FIR) 0%nat None)
                   two_points).
Proof.
  apply (calc_extra_seed_field_fails demo_lib 0%nat pars_with_FIR 0%nat None
           two_points).
  - intros u. discriminate.
  - left. simpl. lra.
Defined.

Ltac gate_tac :=
  split; [reflexivity|];
  split;
    (first
       [ left; split; [assumption|];
         do 3 eexists; repeat (split; [eassumption|]); reflexivity
       | right; split; [assumption|reflexivity] ]).

(** X2 (C4, the gate as written in lines 76-84).  Every scattering model
    [calc] constructs is given the CMB, then the FIR field exactly when
    [uFIR > 0], then the NIR field exactly when [uNIR > 0], whatever unit
    the units module answers for [ev]. *)
Theorem calc_seed_fields_gated (lib : library) (self : obj) (ps : Pars)
    (x : loc) (xhi : option loc) (w : world) :
  Forall (seeds_as_claimed lib ps)
         (calls_of (calc lib self (pars_list ps) x xhi) w).
Proof.
  assert (L : logs (seeds_as_claimed lib ps) (fun _ : list R => True)
                   (calc lib self (pars_list ps) x xhi)).
  { unfold pars_list. unfold_programs.
    logs_tac ltac:(
      unfold seeds_as_claimed; simpl in *; same_units;
      first
        [ exact I
        | split; [reflexivity|]; split; [reflexivity|];
          split; [reflexivity|];
          lazymatch goal with
          | |- exists fir nir, [_; ?f; ?n] = _ /\ _ =>
              exists [f], [n]; solve [gate_tac]
          | |- exists fir nir, [_; ?f] = _ /\ _ =>
              first [ exists [f], (@nil seed); solve [gate_tac]
                    | exists (@nil seed), [f]; solve [gate_tac] ]
          | |- exists fir nir, [_] = _ /\ _ =>
              exists (@nil seed), (@nil seed); solve [gate_tac]
          end ]). }
  apply (logs_calls_of _ _ _ _ L w).
Qed.

(** ** Lines 95-96: the integration over a bin, which no run reaches *)

Lemma nth_tl (l : list R) (i : nat) : nth i (tl l) 0 = nth (S i) l 0.
Proof.
  destruct l; simpl; auto. now destruct i.
Qed.

Lemma nth_removelast (l : list R) (i : nat) :
  (S i < length l)%nat -> nth i (removelast l) 0 = nth i l 0.
Proof.
  revert i; induction l as [|a l IH]; intros i Hi; simpl in *; [lia|].
  destruct l as [|b l]; [simpl in *; lia|].
  destruct i as [|i]; auto. apply IH. simpl in *. lia.
Qed.

Lemma length_tl (l : list R) : length (tl l) = (length l - 1)%nat.
Proof.
  destruct l; simpl; lia.
Qed.

Lemma length_removelast (l : list R) :
  length (removelast l) = (length l - 1)%nat.
Proof.
  induction l as [|a [|b l] IH]; simpl in *; auto. lia.
Qed.

(** Lines 95-96 on their own.  For boundaries [outspec] and a flux [model]
    of the same length, the per-bin step of [calc] (lines 95-96) returns
    one value for each pair of neighbouring boundaries, and value [i] is
    the width of bin [i] times the arithmetic mean of the flux at its two
    edges: the trapezoid rule on the values themselves, not on their
    logarithms.  Its unit is the product of the two units. *)
Theorem bin_photons_linear_trapezoid (outspec model : QArr) (w : world) :
  length (qv outspec) = length (qv model) ->
  exists ym : QArr,
    bin_photons outspec model w = (Ok ym, w) /\
    length (qv ym) = (length (qv outspec) - 1)%nat /\
    qu ym = UMul (qu outspec) (qu model) /\
    forall i, (S i < length (qv outspec))%nat ->
      nth i (qv ym) 0 =
      (nth (S i) (qv outspec) 0 - nth i (qv outspec) 0) *
      ((nth (S i) (qv model) 0 + nth i (qv model) 0) / 2).
Proof.
  intros Hlen. destruct outspec as [xs ux], model as [ms um]. simpl in *.
  unfold bin_photons, qmul, qsub, qadd, qdiv_scalar, qtail, qinit. simpl.
  assert (L1 : length (zip_with Rminus (tl xs) (removelast xs)) =
               (length xs - 1)%nat)
    by (rewrite length_zip_with; rewrite length_tl; auto;
        now rewrite length_removelast).
  assert (L2 : length (zip_with Rplus (tl ms) (removelast ms)) =
               (length xs - 1)%nat)
    by (rewrite length_zip_with; rewrite length_tl; try lia;
        now rewrite length_removelast).
  unfold broadcast2. rewrite length_map, L1, L2, Nat.eqb_refl.
  eexists. split; [reflexivity|]. simpl.
  split; [rewrite length_zip_with; rewrite ?length_map; lia|].
  split; [reflexivity|].
  intros i Hi.
  rewrite nth_zip_with by (rewrite ?length_map; lia).
  rewrite nth_map_R by lia.
  rewrite !nth_zip_with
    by (rewrite ?length_tl, ?length_removelast; lia).
  rewrite !nth_tl, !nth_removelast by lia.
  reflexivity.
Qed.

(** The same at the boundaries 1, 2 and the flux 1, 4. *)
Lemma bin_photons_linear_trapezoid_witness :
  exists ym : QArr,
    bin_photons (mkQA [1; 2] (UName "keV"))
                (mkQA [1; 4] (UStr "1/(s cm2 keV)")) two_points
      = (Ok ym, two_points) /\
    nth 0 (qv ym) 0 = (2 - 1) * ((4 + 1) / 2).
Proof.
  destruct (bin_photons_linear_trapezoid
              (mkQA [1; 2] (UName "keV"))
              (mkQA [1; 4] (UStr "1/(s cm2 keV)")) two_points eq_refl)
    as (ym & Hrun & _ & _ & Hi).
  exists ym. split; [exact Hrun|].
  apply (Hi 0%nat). simpl. lia.
Defined.

Lemma ln_2_pos : 0 < ln 2.
Proof.
  rewrite <- ln_1. apply ln_increasing; lra.
Qed.

Lemma loglog_trapezoid_square : loglog_trapezoid 1 2 1 4 = 7 / 3.
Proof.
  unfold loglog_trapezoid.
  assert (P := ln_2_pos).
  assert (E4 : ln (4 / 1) = ln 2 + ln 2).
  { replace (4 / 1) with (2 * 2) by lra. apply ln_mult; lra. }
  assert (E2 : ln (2 / 1) = ln 2) by (f_equal; lra).
  assert (Eb : ln (4 / 1) / ln (2 / 1) = 2).
  { rewrite E4, E2. field. lra. }
  cbv zeta. rewrite Eb.
  destruct (Req_dec_T (2 + 1) 0) as [E|_]; [lra|].
  replace (2 / 1) with 2 by lra.
  replace (Rpower 2 2) with 4.
  - lra.
  - replace 2 with (INR 2) at 2 by (simpl; lra).
    rewrite Rpower_pow by lra. simpl. lra.
Qed.

(** It is not the trapezoid in log-log space: for the flux values 1 and 4
    at the boundaries 1 and 2, the per-bin step returns 5/2, and the log-log
    trapezoid is 7/3. *)
Lemma bin_photons_not_loglog :
  exists ym : QArr,
    bin_photons (mkQA [1; 2] (UName "keV"))
                (mkQA [1; 4] (UStr "1/(s cm2 keV)")) two_points
      = (Ok ym, two_points) /\
    nth 0 (qv ym) 0 <> loglog_trapezoid 1 2 1 4.
Proof.
  eexists. split; [reflexivity|]. simpl.
  rewrite loglog_trapezoid_square. lra.
Qed.

(** ** C6 and C7: [ElectronIC] *)

Lemma ElectronIC_pars_logs (lib : library) (p0 p1 p2 : R) (data : Table) :
  logs (ElectronIC_call_as_claimed lib p0 p1 p2) (fun _ => True)
       (ElectronIC lib [p0; p1; p2] data).
Proof.
  unfold_programs. unfold getitem. simpl nth_error.
  logs_tac ltac:(
    unfold ElectronIC_call_as_claimed; simpl in *; same_units;
    first
      [ exact I
      | do 2 eexists; repeat (split; [eassumption|]);
        repeat split; reflexivity ]).
Qed.

(** C6.  For a parameter vector of length 3, in every run of [ElectronIC]:
    the particle distribution is constructed only as an exponential-cutoff
    power law with amplitude 1/eV, reference energy 10 TeV, the index
    [pars[1]] as it is, and the cutoff energy [10**pars[2]] TeV; and
    [set_We] is called only with [10**pars[0]] erg and [Eemin] = 1 TeV.
    When [ElectronIC] returns, the calls on the model objects were, in this
    order: the distribution, the scattering model on it with the CMB alone,
    [set_We] on that model, its flux, and the distribution evaluated. *)
Theorem ElectronIC_parameters (lib : library) (p0 p1 p2 : R) (data : Table)
    (w : world) :
  Forall (ElectronIC_call_as_claimed lib p0 p1 p2)
         (calls_of (ElectronIC lib [p0; p1; p2] data) w) /\
  (forall r, fst (ElectronIC lib [p0; p1; p2] data w) = Ok r ->
     exists (erg TeV eV kpc : Unit) (ECPL IC : obj),
       units_attr lib "erg" = Ok erg /\ units_attr lib "TeV" = Ok TeV /\
       units_attr lib "eV" = Ok eV /\ units_attr lib "kpc" = Ok kpc /\
       In (C_ExponentialCutoffPowerLaw
             (mkQ 1 (UDiv UOne eV)) (mkQ 10 TeV) p1
             (mkQ (Rpower 10 p2) TeV) None, Ok (VObj ECPL))
          (calls_of (ElectronIC lib [p0; p1; p2] data) w) /\
       In (C_InverseCompton ECPL [SeedName "CMB"] None None None,
           Ok (VObj IC))
          (calls_of (ElectronIC lib [p0; p1; p2] data) w) /\
       model_calls (calls_of (ElectronIC lib [p0; p1; p2] data) w) =
       [ C_ExponentialCutoffPowerLaw
           (mkQ 1 (UDiv UOne eV)) (mkQ 10 TeV) p1
           (mkQ (Rpower 10 p2) TeV) None;
         C_InverseCompton ECPL [SeedName "CMB"] None None None;
         C_set_We IC (mkQ (Rpower 10 p0) erg) (Some (mkQ 1 TeV));
         C_flux IC (ETable data) (Some (mkQ 2 kpc));
         C_pdist_call ECPL (mkQA (logspace 11 15 100) eV) ]).
Proof.
  split.
  - apply (logs_calls_of _ _ _ _ (ElectronIC_pars_logs lib p0 p1 p2 data) w).
  - intros r Hr.
    destruct (ElectronIC lib [p0; p1; p2] data w) as [r' w'] eqn:Hrun.
    simpl in Hr. subst r'. destruct w as [h tr].
    pose proof Hrun as H. unfold_programs_in H. unfold getitem in H.
    simpl nth_error in H. inv_run. simpl in *. same_units.
    match goal with
    | H1 : units_attr _ "erg" = Ok ?erg,
      H2 : units_attr _ "TeV" = Ok ?TeV,
      H3 : units_attr _ "eV" = Ok ?eV,
      H4 : units_attr _ "kpc" = Ok ?kpc,
      H5 : new_ExponentialCutoffPowerLaw _ _ _ _ _ _ _ = Ok ?ECPL,
      H6 : new_InverseCompton _ _ _ _ _ _ _ = Ok ?IC |- _ =>
        exists erg, TeV, eV, kpc, ECPL, IC
    end.
    do 4 (split; [assumption|]).
    split; [log_of Hrun; in_log|].
    split; [log_of Hrun; in_log|].
    log_of Hrun. reflexivity.
Qed.

Lemma ElectronIC_demo_returns :
  exists r, fst (ElectronIC demo_lib [40; 3; 1] crab_data empty_world) = Ok r.
Proof.
  eexists. unfold ElectronIC. cbn -[logspace]. reflexivity.
Qed.

(** C6 on the example library, where [ElectronIC] returns. *)
Lemma ElectronIC_parameters_witness :
  exists (erg TeV eV kpc : Unit) (ECPL IC : obj),
    units_attr demo_lib "erg" = Ok erg /\
    units_attr demo_lib "TeV" = Ok TeV /\
    units_attr demo_lib "eV" = Ok eV /\
    units_attr demo_lib "kpc" = Ok kpc /\
    In (C_ExponentialCutoffPowerLaw
          (mkQ 1 (UDiv UOne eV)) (mkQ 10 TeV) 3
          (mkQ (Rpower 10 1) TeV) None, Ok (VObj ECPL))
       (calls_of (ElectronIC demo_lib [40; 3; 1] crab_data) empty_world) /\
    In (C_InverseCompton ECPL [SeedName "CMB"] None None None, Ok (VObj IC))
       (calls_of (ElectronIC demo_lib [40; 3; 1] crab_data) empty_world) /\
    model_calls (calls_of (ElectronIC demo_lib [40; 3; 1] crab_data)
                          empty_world) =
    [ C_ExponentialCutoffPowerLaw
        (mkQ 1 (UDiv UOne eV)) (mkQ 10 TeV) 3 (mkQ (Rpower 10 1) TeV) None;
      C_InverseCompton ECPL [SeedName "CMB"] None None None;
      C_set_We IC (mkQ (Rpower 10 40) erg) (Some (mkQ 1 TeV));
      C_flux IC (ETable crab_data) (Some (mkQ 2 kpc));
      C_pdist_call ECPL (mkQA (logspace 11 15 100) eV) ].
Proof.
  destruct ElectronIC_demo_returns as [r Hr].
  exact (proj2 (ElectronIC_parameters demo_lib 40 3 1 crab_data empty_world)
               r Hr).
Defined.

(** *** [np.logspace] *)

Lemma length_logspace (a b : R) (n : nat) : length (logspace a b n) = n.
Proof.
  unfold logspace, linspace. now rewrite !length_map, length_seq.
Qed.

Lemma nth_logspace (a b : R) (n i : nat) :
  (i < n)%nat ->
  nth i (logspace a b n) 0 =
  Rpower 10 (a + INR i * ((b - a) / INR (n - 1))).
Proof.
  intros Hi. unfold logspace, linspace. rewrite map_map.
  rewrite (nth_indep _ 0
             (Rpower 10 (a + INR 0 * ((b - a) / INR (n - 1)))))
    by now rewrite length_map, length_seq.
  rewrite (map_nth (fun k => Rpower 10 (a + INR k * ((b - a) / INR (n - 1))))).
  now rewrite seq_nth.
Qed.

Lemma Rpower_10_nat (n : nat) : Rpower 10 (INR n) = 10 ^ n.
Proof.
  apply Rpower_pow. lra.
Qed.

(** The sample of electron energies: 100 values from [10^11] to [10^15],
    each the one before times the same factor. *)
Lemma logspace_11_15_100 :
  length (logspace 11 15 100) = 100%nat /\
  nth 0 (logspace 11 15 100) 0 = 10 ^ 11 /\
  nth 99 (logspace 11 15 100) 0 = 10 ^ 15 /\
  forall i, (S i < 100)%nat ->
    nth (S i) (logspace 11 15 100) 0 =
    nth i (logspace 11 15 100) 0 * Rpower 10 (4 / 99).
Proof.
  assert (E99 : INR (100 - 1) = 99) by (simpl; lra).
  split; [apply length_logspace|].
  split.
  { rewrite nth_logspace by lia. rewrite <- (Rpower_10_nat 11).
    f_equal. simpl. lra. }
  split.
  { rewrite nth_logspace by lia. rewrite <- (Rpower_10_nat 15).
    f_equal. rewrite E99. simpl. lra. }
  intros i Hi. rewrite !nth_logspace by lia.
  rewrite <- Rpower_plus. f_equal. rewrite S_INR, E99. lra.
Qed.

(** C7.  When [ElectronIC] returns, its value is a pair.  The first
    component is what the scattering model's [flux] answered for the data
    table at the distance 2 kpc, converted to the unit of the table's
    [flux] column.  The second is the pair of the electron energies, 100
    values in eV spaced evenly in the logarithm from [10^11] to [10^15],
    and what the particle distribution built earlier answered when
    evaluated at them. *)
Theorem ElectronIC_result (lib : library) (pars : list R) (data : Table)
    (w w' : world) (model elec_energy nelec : QArr) :
  ElectronIC lib pars data w = (Ok (model, (elec_energy, nelec)), w') ->
  exists (kpc eV : Unit) (IC ECPL : obj) (F col : QArr) (k : R)
         (a e : Quantity) (al : R) (ec : Quantity) (b : option R),
    units_attr lib "kpc" = Ok kpc /\ units_attr lib "eV" = Ok eV /\
    In (C_flux IC (ETable data) (Some (mkQ 2 kpc)), Ok (VQArr F))
       (calls_of (ElectronIC lib pars data) w) /\
    (exists key,
       find (fun c => String.eqb (fst c) "flux") data = Some (key, col)) /\
    units_factor lib (qu F) (qu col) = Ok k /\
    model = mkQA (map (Rmult k) (qv F)) (qu col) /\
    elec_energy = mkQA (logspace 11 15 100) eV /\
    length (qv elec_energy) = 100%nat /\
    nth 0 (qv elec_energy) 0 = 10 ^ 11 /\
    nth 99 (qv elec_energy) 0 = 10 ^ 15 /\
    (forall i, (S i < 100)%nat ->
       nth (S i) (qv elec_energy) 0 =
       nth i (qv elec_energy) 0 * Rpower 10 (4 / 99)) /\
    In (C_ExponentialCutoffPowerLaw a e al ec b, Ok (VObj ECPL))
       (calls_of (ElectronIC lib pars data) w) /\
    In (C_pdist_call ECPL elec_energy, Ok (VQArr nelec))
       (calls_of (ElectronIC lib pars data) w).
Proof.
  intros Hrun. destruct w as [h tr].
  pose proof Hrun as H. unfold_programs_in H. inv_run. simpl in *.
  same_units.
  destruct logspace_11_15_100 as (L1 & L2 & L3 & L4).
  match goal with
  | H1 : units_attr _ "kpc" = Ok ?kpc,
    H2 : units_attr _ "eV" = Ok ?eV,
    H3 : new_ExponentialCutoffPowerLaw _ _ ?a ?e ?al ?ec ?b = Ok ?ECPL,
    H4 : ic_flux _ _ ?IC _ _ = Ok ?F,
    H5 : units_factor _ (qu ?F) (qu ?col) = Ok ?k |- _ =>
      exists kpc, eV, IC, ECPL, F, col, k, a, e, al, ec, b
  end.
  do 2 (split; [assumption|]).
  split; [log_of Hrun; in_log|].
  split; [eauto|].
  split; [assumption|].
  do 6 (split; [first [reflexivity | assumption]|]).
  split; log_of Hrun; in_log.
Qed.

(** C7 on the example library. *)
Lemma ElectronIC_result_witness :
  exists (model elec_energy nelec : QArr) (w' : world) (IC : obj)
         (F col : QArr) (k : R),
    ElectronIC demo_lib [40; 3; 1] crab_data empty_world =
      (Ok (model, (elec_energy, nelec)), w') /\
    In (C_flux IC (ETable crab_data) (Some (mkQ 2 (UName "kpc"))),
        Ok (VQArr F))
       (calls_of (ElectronIC demo_lib [40; 3; 1] crab_data) empty_world) /\
    units_factor demo_lib (qu F) (qu col) = Ok k /\
    model = mkQA (map (Rmult k) (qv F)) (qu col) /\
    length (qv elec_energy) = 100%nat.
Proof.
  destruct ElectronIC_demo_returns as [r Hr].
  destruct (ElectronIC demo_lib [40; 3; 1] crab_data empty_world)
    as [r' w'] eqn:Hrun.
  simpl in Hr. subst r'. destruct r as [model [elec_energy nelec]].
  destruct (ElectronIC_result demo_lib [40; 3; 1] crab_data empty_world w'
              model elec_energy nelec Hrun)
    as (kpc & eV & IC & ECPL & F & col & k & a & e & al & ec & b &
        Hk & _ & Hf & _ & Hc & Hm & _ & Hl & _).
  injection Hk as <-.
  exists model, elec_energy, nelec, w', IC, F, col, k.
  auto.
Defined.

(** ** Runs on the example library *)

Lemma demo_flux_one_per_energy : flux_one_per_energy demo_lib.
Proof.
  intros tr ic e d F H. simpl in H. injection H as <-. simpl.
  unfold ones. apply length_map.
Qed.

Lemma calc_demo_returns :
  exists r,
    fst (calc demo_lib 0%nat default_pars 0%nat None two_points) = Ok r.
Proof.
  eexists. unfold calc, default_pars. cbn. decide_reals. cbn. reflexivity.
Qed.

(** X1 on the example library: two energies, two values. *)
Lemma calc_points_photons_witness :
  exists (r : list R) (w' : world),
    calc demo_lib 0%nat default_pars 0%nat None two_points = (Ok r, w') /\
    length r = 2%nat.
Proof.
  destruct calc_demo_returns as [r Hr].
  destruct (calc demo_lib 0%nat default_pars 0%nat None two_points)
    as [r' w'] eqn:Hrun.
  simpl in Hr. subst r'.
  destruct (calc_points_photons demo_lib 0%nat default_pars 0%nat
              two_points w' r demo_flux_one_per_energy Hrun)
    as (xv & keV & ic & F & k1 & k2 & Hx & _ & _ & _ & _ & Hl & _).
  injection Hx as <-.
  exists r, w'. auto.
Defined.

Lemma calc_demo_cutoff_returns :
  exists r,
    fst (calc demo_lib 0%nat [2; 20; 1; 3; 1; 70; 0; 3800; 0; 0] 0%nat None
           two_points) = Ok r.
Proof.
  eexists. unfold calc. cbn. decide_reals. cbn. reflexivity.
Qed.

(** C3 on the example library: with the default parameters (cutoff 0) a
    power law, with the cutoff 3 a power law with exponential cutoff. *)
Lemma calc_particle_distribution_witness :
  (exists (pd ic : obj) (seeds : list seed),
     In (C_PowerLaw (mkQ 1 (UStr "1/eV")) (mkQ 20 (UName "TeV")) 2,
         Ok (VObj pd))
        (calls_of (calc demo_lib 0%nat default_pars 0%nat None) two_points) /\
     In (C_InverseCompton pd seeds (Some 5%Z) (Some 10%Z) (Some 100%Z),
         Ok (VObj ic))
        (calls_of (calc demo_lib 0%nat default_pars 0%nat None) two_points))
  /\
  (exists (pd ic : obj) (seeds : list seed),
     In (C_ExponentialCutoffPowerLaw
           (mkQ 1 (UStr "1/eV")) (mkQ 20 (UName "TeV")) 2
           (mkQ 3 (UName "TeV")) (Some 1), Ok (VObj pd))
        (calls_of (calc demo_lib 0%nat [2; 20; 1; 3; 1; 70; 0; 3800; 0; 0]
                     0%nat None) two_points) /\
     In (C_InverseCompton pd seeds (Some 5%Z) (Some 10%Z) (Some 100%Z),
         Ok (VObj ic))
        (calls_of (calc demo_lib 0%nat [2; 20; 1; 3; 1; 70; 0; 3800; 0; 0]
                     0%nat None) two_points)).
Proof.
  split.
  - destruct calc_demo_returns as [r Hr].
    destruct (proj2 (proj2 (calc_particle_distribution demo_lib 0%nat
                (mkPars 2 20 1 0 1 70 0 3800 0 0) 0%nat None two_points))
                r Hr)
      as (TeV & c & pd & ic & seeds & HT & Hc & H1 & H2).
    injection HT as <-.
    destruct Hc as [[_ ->]|[Hc _]]; [|simpl in Hc; lra].
    exists pd, ic, seeds. split; [exact H1|exact H2].
  - destruct calc_demo_cutoff_returns as [r Hr].
    destruct (proj2 (proj2 (calc_particle_distribution demo_lib 0%nat
                (mkPars 2 20 1 3 1 70 0 3800 0 0) 0%nat None two_points))
                r Hr)
      as (TeV & c & pd & ic & seeds & HT & Hc & H1 & H2).
    injection HT as <-.
    destruct Hc as [[Hc _]|[_ ->]]; [simpl in Hc; lra|].
    exists pd, ic, seeds. split; [exact H1|exact H2].
Defined.

(** C9 on the example library: two energies, two values. *)
Lemma calc_successful_call_witness :
  exists (r : list R) (w' : world),
    calc demo_lib 0%nat default_pars 0%nat None two_points = (Ok r, w') /\
    length r = 2%nat /\
    nth 1 r 0 = 1 * (2 * (1 * 1)).
Proof.
  destruct calc_demo_returns as [r Hr].
  destruct (calc demo_lib 0%nat default_pars 0%nat None two_points)
    as [r' w'] eqn:Hrun.
  simpl in Hr. subst r'.
  destruct (calc_successful_call demo_lib 0%nat default_pars 0%nat None
              two_points w' r demo_flux_one_per_energy Hrun)
    as (xv & keV & ic & F & k1 & k2 & Hx & Hk & Hin & H1 & H2 & Hl & Hi).
  injection Hx as <-. injection H1 as <-. injection H2 as <-.
  exists r, w'. split; [reflexivity|]. split; [exact Hl|].
  rewrite (Hi 1%nat) by (simpl; lia).
  assert (E : F = mkQA [1; 1] (UStr "1/(s cm2 eV)")).
  { clear - Hin. unfold calls_of, calc, default_pars in Hin. cbn in Hin.
    revert Hin. decide_reals. cbn. intros Hin.
    repeat (destruct Hin as [Hin|Hin]; [try discriminate Hin|]);
      try contradiction.
    now injection Hin. }
  rewrite E. reflexivity.
Defined.

(** * Further properties *)

(** ** [_mergex]: what it leaves alone, and what it does not check *)

Lemma firstn_upd A (n l : nat) (v : A) (h : list A) :
  (n <= l)%nat -> firstn n (upd l v h) = firstn n h.
Proof.
  revert n l; induction h as [|x h IH]; intros [|n] [|l] H; simpl; auto;
    try lia.
  f_equal. apply IH. lia.
Qed.

Lemma length_upd A (l : nat) (v : A) (h : list A) :
  length (upd l v h) = length h.
Proof.
  revert l; induction h as [|x h IH]; intros [|l]; simpl; auto.
Qed.

Lemma keeps_ret A (n : nat) (a : A) : keeps n (eq a) (ret a).
Proof.
  intros w H. simpl. repeat split; auto. intros a' E. now injection E.
Qed.

Lemma keeps_raise A (n : nat) (e : exn) :
  keeps n (fun _ : A => False) (raise e).
Proof.
  intros w H. simpl. repeat split; auto. intros a' E. discriminate.
Qed.

Lemma keeps_read (n : nat) (l : loc) : keeps n (fun _ => True) (read l).
Proof.
  intros w H. unfold read. destruct (nth_error (heap w) l); simpl; auto.
Qed.

Lemma keeps_alloc (n : nat) (a : list R) :
  keeps n (fun l => (n <= l)%nat) (alloc a).
Proof.
  intros w H. unfold alloc. simpl. rewrite length_app. simpl.
  repeat split; try lia.
  - rewrite firstn_app. replace (n - length (heap w))%nat with 0%nat by lia.
    simpl. now rewrite app_nil_r.
  - intros l E. injection E as <-. exact H.
Qed.

Lemma keeps_write (n : nat) (l : loc) (a : list R) :
  (n <= l)%nat -> keeps n (fun _ => True) (write l a).
Proof.
  intros Hl w H. unfold write. destruct (nth_error (heap w) l); simpl; auto.
  rewrite length_upd, firstn_upd by assumption. auto.
Qed.

Lemma keeps_bind A B (n : nat) (R1 : A -> Prop) (R2 : B -> Prop)
    (m : M A) (k : A -> M B) :
  keeps n R1 m -> (forall a, R1 a -> keeps n R2 (k a)) ->
  keeps n R2 (bind m k).
Proof.
  intros Hm Hk w H. destruct (Hm w H) as (Ht & Hl & Hf & HR).
  unfold bind. destruct (m w) as [[a|e] w1]; simpl in *.
  - destruct (Hk a (HR a eq_refl) w1 Hl) as (Ht2 & Hl2 & Hf2 & HR2).
    rewrite Ht2, Hf2. auto.
  - repeat split; auto. intros a E. discriminate.
Qed.

Lemma keeps_post A (n : nat) (R R' : A -> Prop) (m : M A) :
  keeps n R m -> (forall a, R a -> R' a) -> keeps n R' m.
Proof.
  intros Hm HR w H. destruct (Hm w H) as (Ht & Hl & Hf & Hr).
  split; [|split; [|split]]; auto.
Qed.

Create HintDb keeps.

#[export] Hint Resolve keeps_ret keeps_raise keeps_read keeps_alloc
  keeps_write : keeps.

(** Walking through a program that only works on arrays. *)
Ltac keeps_atom := solve [eauto with keeps].

Ltac keeps_step :=
  cbv beta iota zeta;
  lazymatch goal with
  | |- keeps _ _ (bind _ _) =>
      eapply keeps_bind; [keeps_atom | intros ? ?]
  | |- keeps _ _ (if ?c then _ else _) => destruct c
  | |- keeps _ _ (match ?x with _ => _ end) => destruct x
  | |- keeps _ _ _ =>
      eapply keeps_post;
        [keeps_atom | cbv beta; intros; subst; first [tauto | auto]]
  end.

Ltac keeps_tac := repeat keeps_step.

Lemma keeps_np_size (n : nat) (a : loc) : keeps n (fun _ => True) (np_size a).
Proof. unfold np_size. keeps_tac. Qed.

Lemma keeps_np_zeros (n k : nat) :
  keeps n (fun l => (n <= l)%nat) (np_zeros k).
Proof. unfold np_zeros. keeps_tac. Qed.

Lemma keeps_np_copy (n : nat) (a : loc) :
  keeps n (fun l => (n <= l)%nat) (np_copy a).
Proof. unfold np_copy. keeps_tac. Qed.

Lemma keeps_np_setslice_upto (n : nat) (x : loc) (k : nat) (src : loc) :
  (n <= x)%nat -> keeps n (fun _ => True) (np_setslice_upto x k src).
Proof. intros H. unfold np_setslice_upto. keeps_tac. Qed.

Lemma keeps_np_getitem (n : nat) (a : loc) (i : Z) :
  keeps n (fun _ => True) (np_getitem a i).
Proof. unfold np_getitem. keeps_tac. Qed.

Lemma keeps_np_setitem (n : nat) (a : loc) (i : Z) (r : R) :
  (n <= a)%nat -> keeps n (fun _ => True) (np_setitem a i r).
Proof. intros H. unfold np_setitem. keeps_tac. Qed.

Lemma keeps_np_add (n : nat) (a b : loc) :
  keeps n (fun l => (n <= l)%nat) (np_add a b).
Proof. unfold np_add. keeps_tac. Qed.

Lemma keeps_np_div_scalar (n : nat) (a : loc) (c : R) :
  keeps n (fun l => (n <= l)%nat) (np_div_scalar a c).
Proof. unfold np_div_scalar. keeps_tac. Qed.

Lemma keeps_np_concatenate (n : nat) (a b : loc) :
  keeps n (fun l => (n <= l)%nat) (np_concatenate a b).
Proof. unfold np_concatenate. keeps_tac. Qed.

Lemma keeps_np_sort (n : nat) (a : loc) :
  (n <= a)%nat -> keeps n (fun _ => True) (np_sort a).
Proof. intros H. unfold np_sort. keeps_tac. Qed.

#[export] Hint Resolve keeps_np_size keeps_np_zeros keeps_np_copy
  keeps_np_setslice_upto keeps_np_getitem keeps_np_setitem keeps_np_add
  keeps_np_div_scalar keeps_np_concatenate keeps_np_sort : keeps.

Lemma keeps_mergex (n : nat) (xlo xhi : loc) (mp : bool) :
  keeps n (fun l => (n <= l)%nat) (_mergex xlo xhi mp).
Proof. unfold _mergex. keeps_tac. Qed.

(** X5.  Whatever the arrays and the mode, and whether it returns or
    raises, [_mergex] calls no library and leaves every array that existed
    before the call as it was: it writes only to arrays it has allocated
    itself, and an address it returns was not in use before. *)
Theorem mergex_changes_no_array (w : world) (xlo xhi : loc) (mp : bool) :
  trace (snd (_mergex xlo xhi mp w)) = trace w /\
  (forall l a, nth_error (heap w) l = Some a ->
     nth_error (heap (snd (_mergex xlo xhi mp w))) l = Some a) /\
  (forall r, fst (_mergex xlo xhi mp w) = Ok r ->
     nth_error (heap w) r = None).
Proof.
  destruct (keeps_mergex (length (heap w)) xlo xhi mp w (le_n _))
    as (Ht & Hl & Hf & Hr).
  split; [exact Ht|]. split.
  - intros l a H.
    assert (Hlt : (l < length (heap w))%nat) by (eapply nth_error_lt; eauto).
    assert (E : nth_error (firstn (length (heap w))
                             (heap (snd (_mergex xlo xhi mp w)))) l =
                nth_error (firstn (length (heap w)) (heap w)) l)
      by (f_equal; exact Hf).
    rewrite !nth_error_firstn in E.
    destruct (Nat.ltb_spec l (length (heap w))); [congruence|lia].
  - intros r E. apply nth_error_None. exact (Hr r E).
Qed.

(** X6.  Without midpoints, [_mergex] never compares the sizes of its two
    arrays and reads [xhi] at its last entry only: for every [xlo] and every
    non-empty [xhi] it returns a new array, [xlo] followed by [xhi[-1]]. *)
Theorem mergex_reads_last_upper_edge (w : world) (lo hi : loc)
    (xlo xhi : list R) :
  nth_error (heap w) lo = Some xlo ->
  nth_error (heap w) hi = Some xhi ->
  (1 <= length xhi)%nat ->
  exists (r : loc) (w' : world),
    _mergex lo hi false w = (Ok r, w') /\
    nth_error (heap w') r = Some (xlo ++ [last xhi 0]) /\
    nth_error (heap w) r = None.
Proof.
  intros Hlo Hhi Hn.
  eexists _, _. split; [apply (mergex_run_false w lo hi xlo xhi); auto|].
  simpl. split.
  - apply nth_error_snoc_old, nth_error_snoc.
  - apply nth_error_None. lia.
Qed.

(** X6 at three lower edges and one upper edge. *)
Lemma mergex_reads_last_upper_edge_witness :
  exists (r : loc) (w' : world),
    _mergex 0%nat 1%nat false three_and_one = (Ok r, w') /\
    nth_error (heap w') r = Some ([1; 2; 3] ++ [last [5] 0]) /\
    nth_error (heap three_and_one) r = None.
Proof.
  apply (mergex_reads_last_upper_edge three_and_one 0%nat 1%nat [1; 2; 3] [5]).
  - reflexivity.
  - reflexivity.
  - simpl. lia.
Defined.

(** X7.  With [midpoints=True] and arrays of equal size [N >= 1],
    [_mergex] returns a new array of [2N+1] entries, sorted in nondecreasing
    order, that is a permutation of [xlo], the last upper edge and the [N]
    midpoints, whether or not the bins are contiguous or ordered. *)
Theorem mergex_midpoints_any_bins (w : world) (lo hi : loc)
    (xlo xhi : list R) :
  nth_error (heap w) lo = Some xlo ->
  nth_error (heap w) hi = Some xhi ->
  length xlo = length xhi ->
  (1 <= length xlo)%nat ->
  exists (r : loc) (w' : world) (x : list R),
    _mergex lo hi true w = (Ok r, w') /\
    nth_error (heap w') r = Some x /\
    length x = (2 * length xlo + 1)%nat /\
    StronglySorted Rle x /\
    Permutation x ((xlo ++ [last xhi 0]) ++ midpoints xlo xhi).
Proof.
  intros Hlo Hhi Hlen HN.
  eexists _, _, _.
  split; [apply (mergex_run_true w lo hi xlo xhi); auto; lia|]. simpl heap.
  split.
  { rewrite nth_error_app2 by (rewrite !length_app; simpl; lia).
    rewrite !length_app. simpl length.
    replace (length (heap w) + 4 - (length (heap w) + 1 + 1 + 1 + 1))%nat
      with 0%nat by lia.
    reflexivity. }
  split.
  { rewrite (Permutation_length (sort_perm _)), !length_app,
      length_midpoints by auto.
    simpl. lia. }
  split; [apply sort_sorted | apply sort_perm].
Qed.

(** X7 at the bins [3,2] and [1,4]. *)
Lemma mergex_midpoints_any_bins_witness :
  exists (r : loc) (w' : world) (x : list R),
    _mergex 0%nat 1%nat true two_bins_unordered = (Ok r, w') /\
    nth_error (heap w') r = Some x /\
    length x = 5%nat /\
    StronglySorted Rle x /\
    Permutation x (([3; 1] ++ [last [2; 4] 0]) ++ midpoints [3; 1] [2; 4]).
Proof.
  apply (mergex_midpoints_any_bins two_bins_unordered 0%nat 1%nat
           [3; 1] [2; 4]).
  - reflexivity.
  - reflexivity.
  - reflexivity.
  - simpl. lia.
Defined.

Lemma broadcast2_mismatch (f : R -> R -> R) (a b : list R) :
  length a <> length b -> length a <> 1%nat -> length b <> 1%nat ->
  broadcast2 f a b =
  Raise (ValueError "operands could not be broadcast together").
Proof.
  intros Hab Ha Hb. unfold broadcast2.
  destruct (Nat.eqb_spec (length a) (length b)); [contradiction|].
  destruct a as [|x [|x' a]]; destruct b as [|y [|y' b]]; simpl in *;
    try reflexivity; lia.
Qed.

(** X8.  With [midpoints=True], arrays of different sizes of which neither
    has exactly one entry make [_mergex] raise ValueError at [xlo+xhi]
    (line 28); without midpoints the same arrays are accepted (X6). *)
Theorem mergex_midpoints_size_mismatch (w : world) (lo hi : loc)
    (xlo xhi : list R) :
  nth_error (heap w) lo = Some xlo ->
  nth_error (heap w) hi = Some xhi ->
  (1 <= length xhi)%nat ->
  length xlo <> length xhi ->
  length xlo <> 1%nat ->
  length xhi <> 1%nat ->
  fst (_mergex lo hi true w) =
  Raise (ValueError "operands could not be broadcast together").
Proof.
  intros Hlo Hhi Hn Hne H1 H2.
  rewrite (mergex_run true w lo hi xlo xhi) by assumption.
  set (w0 := mkWorld ((heap w ++ [xlo ++ [last xhi 0]]) ++ [xlo]) (trace w)).
  assert (Hlo0 : nth_error (heap w0) lo = Some xlo)
    by now apply nth_error_snoc_old, nth_error_snoc_old.
  assert (Hhi0 : nth_error (heap w0) hi = Some xhi)
    by now apply nth_error_snoc_old, nth_error_snoc_old.
  subst w0. simpl in Hlo0, Hhi0.
  unfold np_add, bind, read. simpl. rewrite Hlo0. simpl. rewrite Hhi0. simpl.
  now rewrite broadcast2_mismatch by assumption.
Qed.

(** X8 at three lower and two upper edges. *)
Lemma mergex_midpoints_size_mismatch_witness :
  fst (_mergex 0%nat 1%nat true three_and_two) =
  Raise (ValueError "operands could not be broadcast together").
Proof.
  apply (mergex_midpoints_size_mismatch three_and_two 0%nat 1%nat
           [1; 2; 3] [4; 5]); simpl; try reflexivity; lia.
Defined.

(** ** [calc]: its parameters, its calls, its report *)

(** X9.  A parameter vector that has not exactly ten entries makes [calc]
    raise ValueError at the unpacking of line 62, before an array is read
    and before a library is called: heap and log are as before. *)
Theorem calc_wrong_parameter_count (lib : library) (self : obj) (p : list R)
    (x : loc) (xhi : option loc) (w : world) :
  length p <> 10%nat ->
  calc lib self p x xhi w =
  (Raise (ValueError "wrong number of values to unpack"), w).
Proof.
  intros H. unfold calc.
  do 11 (destruct p as [|? p]; [try reflexivity; simpl in H; lia|]).
  reflexivity.
Qed.

(** X9 at a vector of three parameters. *)
Lemma calc_wrong_parameter_count_witness :
  calc demo_lib 0%nat [2; 20; 1] 0%nat None two_points =
  (Raise (ValueError "wrong number of values to unpack"), two_points).
Proof.
  apply (calc_wrong_parameter_count demo_lib 0%nat [2; 20; 1] 0%nat None
           two_points).
  simpl. lia.
Defined.

(** X10.  When [calc] returns on unbinned data, the calls it made on model
    objects are, in this order: one particle distribution (a power law or
    one with a cutoff, by the cutoff parameter), one scattering model on
    the object that call answered, with the limits 5, 10 and 100, and one
    evaluation of the flux of that model on [x] in keV, without a distance.
    With [verbose] not 0 they are followed by the report: the thawed
    parameters, their print, [trapz_loglog] over the energies, and the
    print of its result converted to erg/(s cm2). *)
Theorem calc_model_call_sequence (lib : library) (self : obj) (ps : Pars)
    (x : loc) (w w' : world) (r : list R) :
  calc lib self (pars_list ps) x None w = (Ok r, w') ->
  exists (TeV keV : Unit) (xv : list R) (c : call) (pd ic : obj)
         (seeds : list seed) (F : QArr),
    units_attr lib "TeV" = Ok TeV /\
    units_attr lib "keV" = Ok keV /\
    nth_error (heap w) x = Some xv /\
    claimed_pdist_call ps TeV c /\
    (verbose ps = 0 ->
     model_events (calls_of (calc lib self (pars_list ps) x None) w) =
     [ (c, Ok (VObj pd));
       (C_InverseCompton pd seeds (Some 5%Z) (Some 10%Z) (Some 100%Z),
        Ok (VObj ic));
       (C_flux ic (EArr (mkQA xv keV)) None, Ok (VQArr F)) ]) /\
    (verbose ps <> 0 ->
     exists (tp : list R) (ym : QArr) (t t' : Quantity),
       model_events (calls_of (calc lib self (pars_list ps) x None) w) =
       [ (c, Ok (VObj pd));
         (C_InverseCompton pd seeds (Some 5%Z) (Some 10%Z) (Some 100%Z),
          Ok (VObj ic));
         (C_flux ic (EArr (mkQA xv keV)) None, Ok (VQArr F));
         (C_thawedpars self, Ok (VReals tp));
         (C_print (VReals tp), Ok VNone);
         (C_trapz_loglog ym (mkQA xv keV), Ok (VQuantity t));
         (C_print (VQuantity t'), Ok VNone) ] /\
       qunit t' = UStr "erg/(s cm2)" /\
       exists k, units_factor lib (qunit t) (UStr "erg/(s cm2)") = Ok k /\
                 qval t' = k * qval t).
Proof.
  intros Hrun. destruct w as [h tr].
  pose proof Hrun as H. unfold pars_list in H.
  unfold_programs_in H. inv_run.
  all: simpl in *; same_units.
  all: match goal with
       | Hu : units_attr _ "TeV" = Ok ?t,
         Hk : units_attr _ "keV" = Ok ?k,
         Hx : nth_error _ _ = Some ?xv |- _ =>
           exists t, k, xv
       end.
  all: eexists _, _, _, _, _.
  all: do 3 (split; [eassumption|]).
  all: split; [|split];
    [ | intros Hv; first [contradiction | log_of Hrun; reflexivity]
      | intros Hv;
        first [ contradiction
              | do 4 eexists; split; [log_of Hrun; reflexivity|];
                split; [reflexivity|];
                eexists; split; [eassumption|reflexivity] ] ];
    first [ left; split; [assumption|reflexivity]
          | right; split; [assumption|reflexivity] ].
Qed.

(** X10 on the example library, with the default parameters. *)
Lemma calc_model_call_sequence_witness :
  exists (c : call) (pd ic : obj) (seeds : list seed) (F : QArr),
    claimed_pdist_call (mkPars 2 20 1 0 1 70 0 3800 0 0) (UName "TeV") c /\
    model_events (calls_of (calc demo_lib 0%nat default_pars 0%nat None)
                           two_points) =
    [ (c, Ok (VObj pd));
      (C_InverseCompton pd seeds (Some 5%Z) (Some 10%Z) (Some 100%Z),
       Ok (VObj ic));
      (C_flux ic (EArr (mkQA [1; 2] (UName "keV"))) None, Ok (VQArr F)) ].
Proof.
  destruct calc_demo_returns as [r Hr].
  destruct (calc demo_lib 0%nat default_pars 0%nat None two_points)
    as [r' w'] eqn:Hrun.
  simpl in Hr. subst r'.
  destruct (calc_model_call_sequence demo_lib 0%nat
              (mkPars 2 20 1 0 1 70 0 3800 0 0) 0%nat two_points w' r Hrun)
    as (TeV & keV & xv & c & pd & ic & seeds & F & HT & Hk & Hx & Hc & H0 & _).
  injection HT as <-. injection Hk as <-. injection Hx as <-.
  exists c, pd, ic, seeds, F. split; [exact Hc|]. apply H0. reflexivity.
Defined.

Lemma broadcast2_Ok_length (f : R -> R -> R) (a b v : list R) :
  broadcast2 f a b = Ok v ->
  (length a = length b /\ length v = length a) \/
  (length a = 1%nat /\ length v = length b) \/
  (length b = 1%nat /\ length v = length a).
Proof.
  unfold broadcast2.
  destruct (Nat.eqb_spec (length a) (length b)) as [E|E]; intros H.
  - injection H as <-. left. split; [assumption|].
    now apply length_zip_with.
  - destruct a as [|x [|x' a]].
    + destruct b as [|y [|y' b]]; try discriminate.
      injection H as <-. right. right. auto.
    + injection H as <-. right. left. split; [reflexivity|].
      apply length_map.
    + destruct b as [|y [|y' b]]; try discriminate.
      injection H as <-. right. right. split; [reflexivity|].
      simpl. now rewrite length_map.
Qed.

(** X11.  [calc] does not check that [flux] answers one value for each
    energy: numpy's broadcasting decides.  When [calc] returns on unbinned
    data, either the flux answer [F] has as many values as [x], and so has
    the result; or [x] holds one energy and the result has the length of
    [F]; or [F] holds one value and the result has the length of [x].  With
    any other answer the call does not return. *)
Theorem calc_points_broadcast (lib : library) (self : obj) (p : list R)
    (x : loc) (w w' : world) (r : list R) :
  calc lib self p x None w = (Ok r, w') ->
  exists (xv : list R) (keV : Unit) (ic : obj) (F : QArr),
    nth_error (heap w) x = Some xv /\
    In (C_flux ic (EArr (mkQA xv keV)) None, Ok (VQArr F))
       (calls_of (calc lib self p x None) w) /\
    ((length (qv F) = length xv /\ length r = length xv) \/
     (length xv = 1%nat /\ length r = length (qv F)) \/
     (length (qv F) = 1%nat /\ length r = length xv)).
Proof.
  intros Hrun. destruct w as [h tr]. pose proof Hrun as H.
  unfold_programs_in H. inv_run.
  all: simpl in *.
  all: match goal with
       | Hf : ic_flux _ _ ?ic (EArr (mkQA ?xv ?keV)) None = Ok ?F,
         Hb : broadcast2 _ _ _ = Ok (qv ?ym)
         |- context [length (map _ (qv ?ym))] =>
           apply broadcast2_Ok_length in Hb;
           rewrite length_map in Hb;
           exists xv, keV, ic, F
       end.
  all: split; [assumption|].
  all: split; [log_of Hrun; in_log|].
  all: rewrite length_map.
  all: match goal with
       | Hb : _ \/ _ |- _ =>
           destruct Hb as [[E1 E2]|[[E1 E2]|[E1 E2]]]; rewrite E2; auto
       end.
Qed.

Lemma calc_single_flux_returns :
  exists r,
    fst (calc single_flux_lib 0%nat default_pars 0%nat None two_points) =
    Ok r /\ length r = 2%nat.
Proof.
  eexists. unfold calc, default_pars. cbn. decide_reals. cbn.
  split; reflexivity.
Qed.

(** X11 on a library whose flux answers one value for two energies. *)
Lemma calc_points_broadcast_witness :
  exists (r : list R) (w' : world) (ic : obj) (F : QArr),
    calc single_flux_lib 0%nat default_pars 0%nat None two_points =
      (Ok r, w') /\
    In (C_flux ic (EArr (mkQA [1; 2] (UName "keV"))) None, Ok (VQArr F))
       (calls_of (calc single_flux_lib 0%nat default_pars 0%nat None)
                 two_points) /\
    length r = 2%nat.
Proof.
  destruct calc_single_flux_returns as (r & Hr & Hl).
  destruct (calc single_flux_lib 0%nat default_pars 0%nat None two_points)
    as [r' w'] eqn:Hrun.
  simpl in Hr. subst r'.
  destruct (calc_points_broadcast single_flux_lib 0%nat default_pars 0%nat
              two_points w' r Hrun)
    as (xv & keV & ic & F & Hx & Hin & _).
  injection Hx as <-.
  exists r, w', ic, F. split; [reflexivity|]. split; [|exact Hl].
  assert (keV = UName "keV") as <-; [|exact Hin].
  clear - Hin. unfold calls_of, calc, default_pars in Hin. cbn in Hin.
  revert Hin. decide_reals. cbn. intros Hin.
  repeat (destruct Hin as [Hin|Hin]; [try discriminate Hin|]);
    try contradiction.
  now injection Hin.
Defined.

(** Running a program forwards on answers that are known. *)
Ltac run_forward :=
  repeat (cbv beta iota zeta
            delta [bind extern read ret raise map_result heap trace qmul
                   getitem table_getitem qv qu qval qunit
                   index ref ampl cutoff beta TFIR uFIR TNIR uNIR verbose];
          cbn [app];
          match goal with
          | |- context [match ?a with Ok _ => _ | Raise _ => _ end] =>
              match goal with H : a = Ok _ |- _ => rewrite H end
          | |- context [match ?a with Some _ => _ | None => _ end] =>
              match goal with H : a = Some _ |- _ => rewrite H end
          | |- context [Req_dec_T ?a ?b] =>
              destruct (Req_dec_T a b); [|try contradiction; try lra]
          | |- context [Rgt_dec ?a ?b] =>
              destruct (Rgt_dec a b); try contradiction; try lra
          end).

(** One call asked twice gave one answer. *)
Ltac same_answers :=
  repeat match goal with
    | H1 : ?c = Ok ?a, H2 : ?c = Ok ?b |- _ =>
        tryif constr_eq a b then fail
        else (assert (b = a) by congruence; subst b)
    end.

(** X12.  [verbose] changes nothing but the report.  If [calc] returns [r]
    for some value of [verbose], it returns the same [r] for [verbose = 0]
    from the same state, with the same heap, and the log of the first run
    is the log of the second followed by the events of the report: none
    for [verbose = 0], five otherwise ([thawedpars], its print,
    [trapz_loglog], the conversion to erg/(s cm2), the second print). *)
Theorem calc_verbose_only_reports (lib : library) (self : obj)
    (i r0 a c b tf uf tn un v : R) (x : loc) (w w' : world) (r : list R) :
  calc lib self [i; r0; a; c; b; tf; uf; tn; un; v] x None w = (Ok r, w') ->
  exists (w0 : world) (report : list event),
    calc lib self [i; r0; a; c; b; tf; uf; tn; un; 0] x None w = (Ok r, w0) /\
    heap w' = heap w0 /\
    trace w' = trace w0 ++ report /\
    Forall is_report report /\
    (v = 0 -> report = []) /\
    (v <> 0 -> length report = 5%nat).
Proof.
  intros H. destruct w as [h tr].
  unfold_programs_in H. inv_run.
  all: simpl in *.
  all: repeat match goal with
         | q : QArr |- _ => destruct q as [? ?]; simpl in *
         end.
  all: subst; same_answers.
  all: eexists _, _.
  all: split; [unfold_programs; run_forward; reflexivity|].
  all: simpl.
  all: split; [reflexivity|].
  all: first
    [ (* verbose = 0: no report *)
      solve [ split; [symmetry; apply app_nil_r|];
              split; [constructor|]; split; [reflexivity|];
              intros; lra ]
    | (* verbose <> 0: the five events of lines 98-99 *)
      solve [ split; [rewrite <- ?app_assoc; simpl; reflexivity|];
              split; [repeat constructor|];
              split; [intros; contradiction|];
              reflexivity ] ].
Qed.

Lemma calc_demo_verbose_returns :
  exists r,
    fst (calc demo_lib 0%nat [2; 20; 1; 0; 1; 70; 0; 3800; 0; 1] 0%nat None
           two_points) = Ok r.
Proof.
  eexists. unfold calc. cbn. decide_reals. cbn. reflexivity.
Qed.

(** X12 on the example library, with [verbose = 1]. *)
Lemma calc_verbose_only_reports_witness :
  exists (r : list R) (w' w0 : world) (report : list event),
    calc demo_lib 0%nat [2; 20; 1; 0; 1; 70; 0; 3800; 0; 1] 0%nat None
      two_points = (Ok r, w') /\
    calc demo_lib 0%nat [2; 20; 1; 0; 1; 70; 0; 3800; 0; 0] 0%nat None
      two_points = (Ok r, w0) /\
    trace w' = trace w0 ++ report /\
    length report = 5%nat.
Proof.
  destruct calc_demo_verbose_returns as [r Hr].
  destruct (calc demo_lib 0%nat [2; 20; 1; 0; 1; 70; 0; 3800; 0; 1] 0%nat
              None two_points) as [r' w'] eqn:Hrun.
  simpl in Hr. subst r'.
  destruct (calc_verbose_only_reports demo_lib 0%nat 2 20 1 0 1 70 0 3800 0 1
              0%nat two_points w' r Hrun)
    as (w0 & report & H0 & _ & Ht & _ & _ & Hl).
  exists r, w', w0, report.
  split; [reflexivity|]. split; [exact H0|]. split; [exact Ht|].
  apply Hl. lra.
Defined.

(** X13.  With no extra photon field ([uFIR] and [uNIR] not positive),
    [calc] never looks up the units [K], [ev] and [cm], and every scattering
    model it constructs is given the CMB alone: the lookup of [u.ev] on
    lines 79 and 81 is not reached. *)
Theorem calc_without_extra_fields (lib : library) (self : obj) (ps : Pars)
    (x : loc) (xhi : option loc) (w : world) :
  ~ uFIR ps > 0 -> ~ uNIR ps > 0 ->
  Forall no_extra_field (calls_of (calc lib self (pars_list ps) x xhi) w).
Proof.
  intros HF HN.
  assert (L : logs no_extra_field (fun _ : list R => True)
                   (calc lib self (pars_list ps) x xhi)).
  { unfold pars_list. unfold_programs.
    logs_tac_or
      ltac:(unfold no_extra_field; simpl;
            first [exact I | reflexivity | repeat split; discriminate])
      ltac:(simpl in *; tauto). }
  apply (logs_calls_of _ _ _ _ L w).
Qed.

(** X13 on the example library, with the default parameters. *)
Lemma calc_without_extra_fields_witness :
  Forall no_extra_field
         (calls_of (calc demo_lib 0%nat default_pars 0%nat None) two_points).
Proof.
  apply (calc_without_extra_fields demo_lib 0%nat
           (mkPars 2 20 1 0 1 70 0 3800 0 0) 0%nat None two_points);
    simpl; lra.
Defined.

(** ** [ElectronIC]: its parameters and its table *)

(** Going through every run of a program: each library call either
    answers or raises. *)
Ltac run_cases :=
  repeat (cbv beta iota zeta
            delta [bind extern read ret raise map_result heap trace qmul
                   getitem table_getitem qv qu qval qunit];
          cbn [app nth_error];
          match goal with
          | |- context [match ?a with Ok _ => _ | Raise _ => _ end] =>
              lazymatch a with
              | context [match _ with _ => _ end] => fail
              | _ => destruct a eqn:?
              end
          end).

(** X14.  [ElectronIC] reads [pars[0]], [pars[1]] and [pars[2]] and
    nothing more.  With fewer than three entries it calls no model and
    raises IndexError (or the failure of the lookup of [u.erg], which comes
    before [pars[1]] is read); entries after the third are ignored. *)
Theorem ElectronIC_reads_three_parameters (lib : library) (data : Table)
    (w : world) :
  (forall pars, (length pars < 3)%nat ->
     model_calls (calls_of (ElectronIC lib pars data) w) = [] /\
     (fst (ElectronIC lib pars data w) = Raise IndexError \/
      exists e, units_attr lib "erg" = Raise e /\
                fst (ElectronIC lib pars data w) = Raise e)) /\
  (forall p0 p1 p2 rest,
     ElectronIC lib (p0 :: p1 :: p2 :: rest) data w =
     ElectronIC lib [p0; p1; p2] data w).
Proof.
  split.
  - intros pars Hl. destruct w as [h tr].
    destruct pars as [|p0 [|p1 [|p2 rest]]]; simpl in Hl; try lia.
    + split; [|left; reflexivity].
      unfold calls_of. simpl. now rewrite skipn_all.
    + unfold calls_of. unfold_programs. run_cases.
      all: simpl; rewrite skipn_app_exact; split; [reflexivity|].
      * now left.
      * right. eexists. split; reflexivity.
    + unfold calls_of. unfold_programs. run_cases.
      all: simpl; rewrite skipn_app_exact; split; [reflexivity|].
      * now left.
      * right. eexists. split; reflexivity.
  - reflexivity.
Qed.

(** X15.  For a table without a [flux] column [ElectronIC] never returns,
    and the column is missed only after the flux has been computed (line
    30): in a run whose log has an answered [flux] call the result is
    KeyError for [flux], and neither a unit conversion nor the evaluation
    of the particle distribution has taken place. *)
Theorem ElectronIC_missing_flux_column (lib : library) (pars : list R)
    (data : Table) (w : world) :
  find (fun c => String.eqb (fst c) "flux") data = None ->
  (forall r, fst (ElectronIC lib pars data w) <> Ok r) /\
  (forall IC en d F,
     In (C_flux IC en d, Ok (VQArr F)) (calls_of (ElectronIC lib pars data) w)
     -> fst (ElectronIC lib pars data w) = Raise (KeyError "flux") /\
        Forall (fun ev => match fst ev with
                          | C_to _ _ => False
                          | C_pdist_call _ _ => False
                          | _ => True
                          end)
               (calls_of (ElectronIC lib pars data) w)).
Proof.
  intros Hfind. destruct w as [h tr].
  unfold calls_of. unfold_programs.
  destruct pars as [|p0 [|p1 [|p2 rest]]].
  all: run_cases.
  all: rewrite ?Hfind.
  all: simpl.
  all: split; [intros r; discriminate|].
  all: rewrite <- ?app_assoc; rewrite ?skipn_all, ?skipn_app_exact.
  all: simpl.
  all: intros IC en d F Hin.
  all: repeat (destruct Hin as [Hin|Hin]; [try discriminate Hin|]).
  all: try contradiction.
  all: split; [reflexivity|repeat constructor].
Qed.

(** X15 on the example library and a table with energies only. *)
Lemma ElectronIC_missing_flux_column_witness :
  fst (ElectronIC demo_lib [40; 3; 1] energy_only empty_world) =
  Raise (KeyError "flux").
Proof.
  destruct (ElectronIC_missing_flux_column demo_lib [40; 3; 1] energy_only
              empty_world eq_refl) as [_ H].
  apply (H 5%nat (ETable energy_only) (Some (mkQ 2 (UName "kpc")))
           (mkQA [1; 1] (UStr "1/(s cm2 eV)"))).
  unfold calls_of, ElectronIC. cbn -[logspace]. in_log.
Defined.

(** ** [lnprior], [guess] and [__init__] *)

Lemma xleb_spec (a b : xfloat) : xleb a b = true <-> xle a b.
Proof.
  destruct a, b; simpl; try tauto; try (split; [discriminate|tauto]).
  destruct (Rle_dec r r0); split; auto; discriminate.
Qed.

Lemma demo_uniform_prior_is_uniform : is_uniform_prior demo_uniform_prior.
Proof.
  intros v lo hi. unfold demo_uniform_prior.
  destruct (xleb lo (Fin v)) eqn:E1; destruct (xleb (Fin v) hi) eqn:E2;
    cbn [andb]; split; intros H; try reflexivity.
  - exfalso. apply H. split; now apply xleb_spec.
  - destruct H as [_ H]. apply xleb_spec in H. congruence.
  - destruct H as [H _]. apply xleb_spec in H. congruence.
  - destruct H as [H _]. apply xleb_spec in H. congruence.
Qed.

(** X17.  With a uniform prior (log-probability 0 within the bounds, minus
    infinity outside), [lnprior] is 0 exactly when [pars[0] >= 0] and
    [-1 <= pars[1] <= 5], and minus infinity otherwise, whatever the
    entries from [pars[2]] on: the cutoff is not constrained.  A vector of
    fewer than two entries raises IndexError. *)
Theorem lnprior_support (up : R -> xfloat -> xfloat -> result xfloat)
    (w : world) :
  is_uniform_prior up ->
  (forall a b rest,
     (0 <= a /\ -1 <= b <= 5 ->
      lnprior up (a :: b :: rest) w = (Ok (Fin 0), w)) /\
     (~ (0 <= a /\ -1 <= b <= 5) ->
      lnprior up (a :: b :: rest) w = (Ok NInf, w))) /\
  (forall pars, (length pars < 2)%nat ->
     lnprior up pars w = (Raise IndexError, w)).
Proof.
  intros Hup. split.
  - intros a b rest.
    assert (Ha : 0 <= a -> up a (Fin 0) PInf = Ok (Fin 0))
      by (intros H; apply Hup; simpl; auto).
    assert (Ha' : ~ 0 <= a -> up a (Fin 0) PInf = Ok NInf)
      by (intros H; apply Hup; simpl; tauto).
    assert (Hb : -1 <= b <= 5 -> up b (Fin (-1)) (Fin 5) = Ok (Fin 0))
      by (intros H; apply Hup; simpl; auto).
    assert (Hb' : ~ -1 <= b <= 5 -> up b (Fin (-1)) (Fin 5) = Ok NInf)
      by (intros H; apply Hup; simpl; tauto).
    unfold lnprior, getitem, bind, lift, ret. simpl.
    split.
    + intros [H1 H2]. rewrite (Ha H1), (Hb H2). simpl.
      now rewrite Rplus_0_l.
    + intros H.
      destruct (Rle_dec 0 a) as [H1|H1];
        [rewrite (Ha H1)|rewrite (Ha' H1)];
        (destruct (Rle_dec (-1) b) as [H2|H2];
         [destruct (Rle_dec b 5) as [H3|H3]|]);
        try (rewrite Hb by tauto); try (rewrite Hb' by tauto);
        try reflexivity; tauto.
  - intros pars Hl. destruct pars as [|a [|b rest]]; simpl in Hl; try lia.
    + reflexivity.
    + unfold lnprior, getitem, bind, lift, ret. simpl.
      destruct (Hup a (Fin 0) PInf) as [H1 H2].
      destruct (Rle_dec 0 a) as [H|H].
      * rewrite H1 by (simpl; auto). reflexivity.
      * rewrite H2 by (simpl; tauto). reflexivity.
Qed.

(** X17 at the start vector of the main block. *)
Lemma lnprior_support_witness :
  lnprior demo_uniform_prior p0 empty_world = (Ok (Fin 0), empty_world).
Proof.
  apply (proj1 (lnprior_support demo_uniform_prior empty_world
                  demo_uniform_prior_is_uniform) 40 3 [log10 30]).
  lra.
Defined.

Lemma calc_binned_run (lib : library) (self : obj) (p : list R)
    (x hi : loc) (w : world) :
  exists e, calc lib self p x (Some hi) w = (Raise e, w) /\
    (length p = 10%nat -> e = NameError "xlo") /\
    (length p <> 10%nat -> e = ValueError "wrong number of values to unpack").
Proof.
  unfold calc.
  do 11 (destruct p as [|? p];
         [eexists; split; [reflexivity|];
          split; simpl; intros H; try reflexivity; try lia|]).
  eexists; split; [reflexivity|].
  split; simpl; intros H; try reflexivity; lia.
Qed.

(** X18.  [guess] never sets the amplitude.  It hands [xlo] and [xhi] to
    [calc], which fails on binned data, so every call of [guess] raises:
    NameError for [xlo] on a model of ten parameters and two arrays,
    ValueError when [args] has not exactly two entries.  Heap and log are
    as before the call: [trapz_loglog] is not called and [ampl.set] is not
    reached. *)
Theorem guess_never_sets_amplitude (lib : library)
    (Param_set : Param -> R -> result Param) (self : obj) (m : Model)
    (dep : loc) (args : list loc) (w : world) :
  (forall m', fst (guess lib Param_set self m dep args w) <> Ok m') /\
  snd (guess lib Param_set self m dep args w) = w /\
  (length args = 2%nat -> length (pars m) = 10%nat ->
   fst (guess lib Param_set self m dep args w) = Raise (NameError "xlo")) /\
  (length args <> 2%nat ->
   fst (guess lib Param_set self m dep args w) =
   Raise (ValueError "wrong number of values to unpack")).
Proof.
  unfold guess.
  destruct args as [|xlo [|xhi [|z args]]].
  1, 2, 4: repeat split; simpl; try discriminate; intros; lia.
  destruct (calc_binned_run lib self (map par_val (pars m)) xlo xhi w)
    as (e & He & H10 & _).
  unfold unpack_args, bind, ret. simpl. rewrite He. simpl.
  repeat split; try discriminate.
  - intros _ Hl. rewrite H10; [reflexivity|]. now rewrite length_map.
  - intros H. contradiction.
Qed.

(** [guess] on a fresh model, two contiguous bins and their counts. *)
Lemma guess_never_sets_amplitude_witness :
  fst (guess demo_lib set_any 0%nat (InverseCompton_init "IC") 2%nat
         [0%nat; 1%nat] two_bins_and_counts) = Raise (NameError "xlo").
Proof.
  apply (proj1 (proj2 (proj2
           (guess_never_sets_amplitude demo_lib set_any 0%nat
              (InverseCompton_init "IC") 2%nat [0%nat; 1%nat]
              two_bins_and_counts)))); reflexivity.
Defined.

(** X19.  The model that [__init__] builds fits [calc]: its ten values
    unpack (line 62) so that the value of every parameter lands in the
    variable of the parameter's name; every parameter carries the name of
    the model and lies within the bounds it is declared with; the names
    are distinct; [index] and [ampl] are the parameters that are not
    frozen; and the initial values mean no cutoff, no extra photon field
    and no report. *)
Theorem init_matches_calc (name : string) (w : world) :
  exists ps : Pars,
    unpack (map par_val (pars (InverseCompton_init name))) w = (Ok ps, w) /\
    Forall (fun p => Pars_get ps (par_name p) = Some (par_val p) /\
                     par_model p = name /\ within_bounds p)
           (pars (InverseCompton_init name)) /\
    NoDup (map par_name (pars (InverseCompton_init name))) /\
    map par_name (filter (fun p => negb (par_frozen p))
                         (pars (InverseCompton_init name))) =
    ["index"; "ampl"] /\
    cutoff ps = 0 /\ ~ uFIR ps > 0 /\ ~ uNIR ps > 0 /\ verbose ps = 0.
Proof.
  eexists. split; [reflexivity|]. simpl.
  split.
  { unfold within_bounds. repeat constructor; simpl; lra. }
  split.
  { repeat constructor; simpl; intuition discriminate. }
  repeat split; try reflexivity; lra.
Qed.

(** X20.  A model as [__init__] builds it, evaluated on unbinned data:
    when [calc] returns for the initial values, its calls on model objects
    are a [PowerLaw] with amplitude 1/eV, reference energy 20 TeV and index
    2, a scattering model on the object that call answered, with the CMB
    alone, and the flux of that model on [x] in keV. *)
Theorem fresh_model_calls (lib : library) (self : obj) (name : string)
    (x : loc) (w w' : world) (r : list R) :
  calc lib self (map par_val (pars (InverseCompton_init name))) x None w =
    (Ok r, w') ->
  exists (TeV keV : Unit) (xv : list R) (pd ic : obj) (F : QArr),
    units_attr lib "TeV" = Ok TeV /\
    units_attr lib "keV" = Ok keV /\
    nth_error (heap w) x = Some xv /\
    model_events (calls_of (calc lib self
                              (map par_val (pars (InverseCompton_init name)))
                              x None) w) =
    [ (C_PowerLaw (mkQ 1 (UStr "1/eV")) (mkQ 20 TeV) 2, Ok (VObj pd));
      (C_InverseCompton pd [SeedName "CMB"]
         (Some 5%Z) (Some 10%Z) (Some 100%Z), Ok (VObj ic));
      (C_flux ic (EArr (mkQA xv keV)) None, Ok (VQArr F)) ].
Proof.
  intros Hrun. destruct w as [h tr]. pose proof Hrun as H.
  simpl map in H. unfold_programs_in H. inv_run.
  all: simpl in *; try lra.
  match goal with
  | Hu : units_attr _ "TeV" = Ok ?t,
    Hk : units_attr _ "keV" = Ok ?k,
    Hx : nth_error _ _ = Some ?xv,
    Hp : new_PowerLaw _ _ _ _ _ = Ok ?pd,
    Hi : new_InverseCompton _ _ _ _ _ _ _ = Ok ?ic,
    Hf : ic_flux _ _ _ _ _ = Ok ?F |- _ =>
      exists t, k, xv, pd, ic, F
  end.
  do 3 (split; [assumption|]).
  log_of Hrun. reflexivity.
Qed.

(** X20 on the example library. *)
Lemma fresh_model_calls_witness :
  exists (pd ic : obj) (F : QArr),
    model_events (calls_of (calc demo_lib 0%nat
                              (map par_val (pars (InverseCompton_init "IC")))
                              0%nat None) two_points) =
    [ (C_PowerLaw (mkQ 1 (UStr "1/eV")) (mkQ 20 (UName "TeV")) 2,
       Ok (VObj pd));
      (C_InverseCompton pd [SeedName "CMB"]
         (Some 5%Z) (Some 10%Z) (Some 100%Z), Ok (VObj ic));
      (C_flux ic (EArr (mkQA [1; 2] (UName "keV"))) None, Ok (VQArr F)) ].
Proof.
  destruct calc_demo_returns as [r Hr].
  destruct (calc demo_lib 0%nat default_pars 0%nat None two_points)
    as [r' w'] eqn:Hrun.
  simpl in Hr. subst r'.
  destruct (fresh_model_calls demo_lib 0%nat "IC" 0%nat two_points w' r Hrun)
    as (TeV & keV & xv & pd & ic & F & HT & Hk & Hx & Hm).
  injection HT as <-. injection Hk as <-. injection Hx as <-.
  exists pd, ic, F. exact Hm.
Defined.

(** ** C8: failures reach the caller *)

Lemma calc_unpack_failure (lib : library) (self : obj) (p : list R)
    (x : loc) (xhi : option loc) (w : world) :
  length p <> 10%nat ->
  calc lib self p x xhi w =
  (Raise (ValueError "wrong number of values to unpack"), w).
Proof.
  intros H. unfold calc.
  do 11 (destruct p as [|? p]; [try reflexivity; simpl in H; lia|]).
  reflexivity.
Qed.

(** The product [outspec * model] of line 93: when the shapes do not fit,
    the ValueError of numpy is the result of [calc]. *)
Lemma calc_product_failure (lib : library) (self : obj) (p : list R)
    (x : loc) (w : world) (xv : list R) (ic : obj) (en : flux_arg)
    (F : QArr) (k : R) (e : exn) :
  nth_error (heap w) x = Some xv ->
  In (C_flux ic en None, Ok (VQArr F)) (calls_of (calc lib self p x None) w) ->
  units_factor lib (qu F) (UStr "1/(s cm2 keV)") = Ok k ->
  broadcast2 Rmult xv (map (Rmult k) (qv F)) = Raise e ->
  fst (calc lib self p x None w) = Raise e.
Proof.
  intros Hx Hin Hk Hb.
  destruct (Nat.eq_dec (length p) 10) as [Hp|Hp].
  2:{ exfalso. unfold calls_of in Hin.
      rewrite (calc_unpack_failure lib self p x None w Hp) in Hin.
      simpl in Hin. now rewrite skipn_all in Hin. }
  do 10 (destruct p as [|? p]; [simpl in Hp; lia|]).
  destruct p; [clear Hp|simpl in Hp; lia].
  destruct w as [h tr]. simpl in Hx.
  revert Hin. unfold calls_of. unfold_programs.
  cbv beta iota zeta
    delta [bind extern read ret raise map_result heap trace
           index ref ampl cutoff beta TFIR uFIR TNIR uNIR verbose].
  rewrite Hx. cbv beta iota.
  run_all_cases.
  all: simpl; rewrite <- ?app_assoc; rewrite ?skipn_all, ?skipn_app_exact;
    simpl; intros Hin.
  all: repeat (destruct Hin as [Hin|Hin]; [try discriminate Hin|]);
    try contradiction.
  all: injection Hin as ? ? ?; subst; congruence.
Qed.

(** [pars[i]] on a vector that is too short. *)
Lemma ElectronIC_index_failure (lib : library) (pars : list R)
    (data : Table) (w : world) :
  (length pars < 3)%nat ->
  pars = [] \/ (exists erg, units_attr lib "erg" = Ok erg) ->
  fst (ElectronIC lib pars data w) = Raise IndexError.
Proof.
  intros Hl Herg. destruct w as [h tr].
  destruct pars as [|p0 [|p1 [|p2 rest]]]; simpl in Hl; try lia.
  - reflexivity.
  - destruct Herg as [Herg|[erg Herg]]; [discriminate Herg|].
    unfold_programs. run_cases; [reflexivity|congruence].
  - destruct Herg as [Herg|[erg Herg]]; [discriminate Herg|].
    unfold_programs. run_cases; [reflexivity|congruence].
Qed.

(** [data['flux']] on a table without that column. *)
Lemma ElectronIC_key_failure (lib : library) (pars : list R) (data : Table)
    (w : world) (IC : obj) (en : flux_arg) (d : option Quantity) (F : QArr) :
  find (fun c => String.eqb (fst c) "flux") data = None ->
  In (C_flux IC en d, Ok (VQArr F)) (calls_of (ElectronIC lib pars data) w) ->
  fst (ElectronIC lib pars data w) = Raise (KeyError "flux").
Proof.
  intros Hfind. destruct w as [h tr].
  unfold calls_of. unfold_programs.
  destruct pars as [|p0 [|p1 [|p2 rest]]].
  all: run_cases.
  all: rewrite ?Hfind.
  all: simpl.
  all: rewrite <- ?app_assoc; rewrite ?skipn_all, ?skipn_app_exact.
  all: simpl.
  all: intros Hin.
  all: repeat (destruct Hin as [Hin|Hin]; [try discriminate Hin|]).
  all: try contradiction.
  all: reflexivity.
Qed.

(** C8.  Nothing is caught in [ElectronIC] and in [calc]: a failure is the
    result of the function.  If a call to a library (a unit lookup, a unit
    conversion, a model constructor or method, [trapz_loglog]) raised, the
    function raises that exception.  If the shapes in the product of the
    energies and the flux (line 93) do not fit, [calc] raises numpy's
    ValueError; a parameter vector that does not unpack raises ValueError.
    If [pars] is too short, [ElectronIC] raises IndexError, and if the
    table has no [flux] column it raises KeyError, after the flux has been
    computed. *)
Theorem failures_propagate (lib : library) (w : world) :
  (forall c e pars data,
     In (c, Raise e) (calls_of (ElectronIC lib pars data) w) ->
     fst (ElectronIC lib pars data w) = Raise e) /\
  (forall c e self p x xhi,
     In (c, Raise e) (calls_of (calc lib self p x xhi) w) ->
     fst (calc lib self p x xhi w) = Raise e) /\
  (forall self p x xv ic en F k e,
     nth_error (heap w) x = Some xv ->
     In (C_flux ic en None, Ok (VQArr F))
        (calls_of (calc lib self p x None) w) ->
     units_factor lib (qu F) (UStr "1/(s cm2 keV)") = Ok k ->
     broadcast2 Rmult xv (map (Rmult k) (qv F)) = Raise e ->
     fst (calc lib self p x None w) = Raise e) /\
  (forall self p x xhi,
     length p <> 10%nat ->
     fst (calc lib self p x xhi w) =
     Raise (ValueError "wrong number of values to unpack")) /\
  (forall pars data,
     (length pars < 3)%nat ->
     pars = [] \/ (exists erg, units_attr lib "erg" = Ok erg) ->
     fst (ElectronIC lib pars data w) = Raise IndexError) /\
  (forall pars data IC en d F,
     find (fun c => String.eqb (fst c) "flux") data = None ->
     In (C_flux IC en d, Ok (VQArr F))
        (calls_of (ElectronIC lib pars data) w) ->
     fst (ElectronIC lib pars data w) = Raise (KeyError "flux")).
Proof.
  split.
  { intros c e pars data.
    apply (logs_calls_of _ _ _ _ (ElectronIC_logs lib pars data) w). }
  split.
  { intros c e self p x xhi.
    apply (logs_calls_of _ _ _ _ (calc_logs lib self p x xhi) w). }
  split.
  { intros self p x xv ic en F k e. apply calc_product_failure. }
  split.
  { intros self p x xhi Hp. now rewrite calc_unpack_failure. }
  split.
  { intros pars data. apply ElectronIC_index_failure. }
  intros pars data IC en d F. apply ElectronIC_key_failure.
Qed.

Lemma calc_three_flux_log :
  In (C_flux 3%nat (EArr (mkQA [1; 2] (UName "keV"))) None,
      Ok (VQArr (mkQA [7; 8; 9] (UStr "1/(s cm2 eV)"))))
     (calls_of (calc three_flux_lib 0%nat default_pars 0%nat None)
               two_points).
Proof.
  unfold calls_of, calc, default_pars. cbn. decide_reals. cbn. in_log.
Qed.

(** C8 on the example library: a [flux] that fails, a [flux] that answers
    three values for two energies, a vector of two parameters, and a table
    without [flux]. *)
Lemma failures_propagate_witness :
  fst (calc flux_fails_lib 0%nat default_pars 0%nat None two_points) =
    Raise (LibraryError "flux") /\
  fst (calc three_flux_lib 0%nat default_pars 0%nat None two_points) =
    Raise (ValueError "operands could not be broadcast together") /\
  fst (ElectronIC demo_lib [40; 3] crab_data empty_world) =
    Raise IndexError /\
  fst (ElectronIC demo_lib [40; 3; 1] energy_only empty_world) =
    Raise (KeyError "flux").
Proof.
  split.
  { apply (proj1 (proj2 (failures_propagate flux_fails_lib two_points))
             (C_flux 3%nat (EArr (mkQA [1; 2] (UName "keV"))) None)).
    unfold calls_of, calc, default_pars. cbn. decide_reals. cbn. in_log. }
  split.
  { apply (proj1 (proj2 (proj2 (failures_propagate three_flux_lib
                                   two_points)))
             0%nat default_pars 0%nat [1; 2] 3%nat
             (EArr (mkQA [1; 2] (UName "keV")))
             (mkQA [7; 8; 9] (UStr "1/(s cm2 eV)")) 1).
    - reflexivity.
    - exact calc_three_flux_log.
    - reflexivity.
    - reflexivity. }
  split.
  { apply (proj1 (proj2 (proj2 (proj2 (proj2
             (failures_propagate demo_lib empty_world)))))).
    - simpl. lia.
    - right. now eexists. }
  apply (proj2 (proj2 (proj2 (proj2 (proj2
           (failures_propagate demo_lib empty_world)))))
           [40; 3; 1] energy_only 5%nat (ETable energy_only)
           (Some (mkQ 2 (UName "kpc")))
           (mkQA [1; 1] (UStr "1/(s cm2 eV)")) eq_refl).
  unfold calls_of, ElectronIC. cbn -[logspace]. in_log.
Defined.
